(** * Lottie animation loader and controller (lottie/lottie_animation.cpp)

    A shallow embedding of Telegram Desktop's [lottie_animation.cpp]:
    the content loader ([UnpackGzip], [ReadFile], [ReadContent]), the
    decode initializer ([ContentError], [CheckSharedState], both [Init]
    overloads, [details::CreateFromContent], [ReadThumbnail]) and the
    [Animation] controller with its frame-pacing methods.

    The collaborators that live outside this translation unit (zlib,
    rlottie, [Lottie::Cache], [Lottie::SharedState], the constants of
    lottie_common.h) are interfaces here: type classes whose instances
    supply their behaviour.  Calls into the decode library are recorded
    in an event log, failed [Assert]/[Expects] checks end the run. *)

From Stdlib Require Import ZArith Lia Bool List.
From Stdlib Require Import Strings.Byte.
From stdpp Require Import base option list gmap strings.

Local Open Scope Z_scope.

(** ** Bytes, machine integers *)

(** [QByteArray] and [std::string] are both plain byte sequences. *)
Abbreviation bytes := (list byte).

(** [QByteArray::size()], an [int]. *)
Definition QByteArray_size (b : bytes) : Z := Z.of_nat (length b).

(** [std::string::size()], a [size_t]. *)
Definition string_size (s : bytes) : Z := Z.of_nat (length s).

(** zlib's [uInt] is 32 bits wide, [size_t] and [crl::time] are 64 bits. *)
Definition to_uInt (z : Z) : Z := z mod 2 ^ 32.
Definition to_size_t (z : Z) : Z := z mod 2 ^ 64.
Definition to_int64 (z : Z) : Z := (z + 2 ^ 63) mod 2 ^ 64 - 2 ^ 63.

(** [std::string(n, char(0))]. *)
Definition string_fill (n : Z) : bytes := replicate (Z.to_nat n) Byte.x00.

(** [std::string::resize(n)]: truncates, or pads with zero bytes. *)
Definition string_resize (s : bytes) (n : Z) : bytes :=
  take (Z.to_nat n) s ++ replicate (Z.to_nat n - length s)%nat Byte.x00.

(** ** Effects

    A run of the initializer yields the list of calls it made into the
    decode library, oldest first, and a value unless an [Assert] or
    [Expects] failed on the way. *)

Inductive Event :=
| EvCreateFromContent (content : bytes)
| EvLoadFromData (data : bytes).

Definition Eff (A : Type) : Type := list Event * option A.

Definition eret {A} (a : A) : Eff A := ([], Some a).
Definition ebind {A B} (m : Eff A) (k : A -> Eff B) : Eff B :=
  match m with
  | (log, Some a) => let '(log', r) := k a in (log ++ log', r)
  | (log, None) => (log, None)
  end.
Definition emit (e : Event) : Eff unit := ([e], Some tt).
Definition Assert (b : bool) : Eff unit := ([], if b then Some tt else None).

#[global] Instance Eff_ret : MRet Eff := @eret.
#[global] Instance Eff_bind : MBind Eff := fun A B k m => ebind m k.

Definition elog {A} (m : Eff A) : list Event := fst m.
Definition evalue {A} (m : Eff A) : option A := snd m.

(** The run made no call into the decode library at all. *)
Definition decode_not_invoked {A} (m : Eff A) : Prop := elog m = [].

Definition is_load (e : Event) : bool :=
  match e with EvLoadFromData _ => true | _ => false end.

(** Number of [rlottie::Animation::loadFromData] calls in a log. *)
Definition loads (log : list Event) : nat := length (filter is_load log).

(** ** Constants of lottie_common.h *)

(** [kMaxFileSize] and [kTimeUnknown] are declared in lottie_common.h;
    their values are left open. *)
Class Limits := {
  kMaxFileSize : Z;
  kTimeUnknown : Z;
}.

(** [kMaxFileSize] is a non-negative [int] and [kMaxFileSize + 1] does
    not overflow. *)
Definition kMaxFileSize_is_int `{Limits} : Prop :=
  0 <= kMaxFileSize < 2 ^ 31 - 1.

(** ** zlib *)

Module zlib.
Definition Z_OK : Z := 0.
Definition Z_STREAM_END : Z := 1.
Definition Z_DATA_ERROR : Z := -3.
Definition Z_MEM_ERROR : Z := -4.
Definition Z_BUF_ERROR : Z := -5.
Definition Z_NO_FLUSH : Z := 0.
Definition MAX_WBITS : Z := 15.

(** The fields of [z_stream] that [UnpackGzip] touches.  [next_in] is
    the unread input; the output pointer always addresses the start of
    the scratch buffer, so it is not a field. *)
Record z_stream := mk_stream {
  avail_in : Z;
  next_in : bytes;
  avail_out : Z;
}.

(** [inflateInit2] gives its return code; [inflate] gives its return
    code, the updated stream and the bytes it stored at [next_out]. *)
Class Api := {
  inflateInit2 : Z -> Z;
  inflate : z_stream -> Z -> Z * z_stream * bytes;
}.

(** What zlib.h promises of one [inflate] call: it stores exactly as
    many bytes as [avail_out] went down by, and never more than the
    room it was given. *)
Definition output_contract `{Api} : Prop :=
  forall s flush,
    0 <= avail_out s ->
    let '(_, s', written) := inflate s flush in
    0 <= avail_out s' /\
    avail_out s' = avail_out s - Z.of_nat (length written).
End zlib.
Import zlib.

(** ** Content loader *)

Section ContentLoader.
Context `{Limits} `{zlib.Api}.

(** The body of [while (!stream.avail_out)] in [UnpackGzip].  [inl s]
    is a [return s] from inside the loop, [inr] the state at the
    loop's normal exit; [None] means the fuel ran out. *)
Fixpoint UnpackGzip_loop (fuel : nat) (original result : bytes)
    (stream : z_stream) : option (bytes + z_stream * bytes) :=
  if negb (avail_out stream =? 0) then Some (inr (stream, result))
  else match fuel with
  | O => None
  | S fuel' =>
    let stream :=
      mk_stream (avail_in stream) (next_in stream)
                (to_uInt (string_size result)) in
    let '(res, stream, written) := inflate stream Z_NO_FLUSH in
    let result := written ++ drop (length written) result in
    if negb (res =? Z_OK) && negb (res =? Z_STREAM_END) then
      Some (inl original)
    else if avail_out stream =? 0 then
      Some (inl original)
    else UnpackGzip_loop fuel' original result stream
  end.

Definition UnpackGzip_fuel (fuel : nat) (bytes_ : bytes) : option bytes :=
  let original := bytes_ in
  let res := inflateInit2 (16 + MAX_WBITS) in
  if negb (res =? Z_OK) then Some original
  else
    let result := string_fill (kMaxFileSize + 1) in
    let stream :=
      mk_stream (to_uInt (QByteArray_size bytes_)) bytes_ 0 in
    match UnpackGzip_loop fuel original result stream with
    | None => None
    | Some (inl early) => Some early
    | Some (inr (stream, result)) =>
      Some (string_resize result
              (to_size_t (string_size result - avail_out stream)))
    end.

(** The one [inflate] call [UnpackGzip] makes: all of the input, the
    whole scratch buffer as room. *)
Definition UnpackGzip_call (bytes_ : bytes) : Z * z_stream * bytes :=
  inflate
    (mk_stream (to_uInt (QByteArray_size bytes_)) bytes_
               (to_uInt (string_size (string_fill (kMaxFileSize + 1)))))
    Z_NO_FLUSH.

(** Given [room] bytes of output space, zlib inflates [input] to the end
    of its gzip stream and stores [x]: [input] is a complete, valid
    compression of [x]. *)
Definition inflates_to (room : Z) (input x : bytes) : Prop :=
  exists stream,
    inflate (mk_stream (to_uInt (QByteArray_size input)) input room)
            Z_NO_FLUSH
    = (Z_STREAM_END, stream, x).

(** zlib refuses [input]: the call ends with an error code. *)
Definition inflate_rejects (input : bytes) : Prop :=
  (UnpackGzip_call input).1.1 <> Z_OK
  /\ (UnpackGzip_call input).1.1 <> Z_STREAM_END.

(** One round of the loop always decides (see [UnpackGzip_fuel_enough]),
    so the fallback branch below is never taken. *)
Definition UnpackGzip (bytes_ : bytes) : bytes :=
  match UnpackGzip_fuel 1 bytes_ with
  | Some r => r
  | None => bytes_
  end.

(** [QFile] as [ReadFile] sees it: the reported size, whether
    [open(ReadOnly)] succeeds, and what [readAll()] yields. *)
Record QFile := mk_file {
  file_size : Z;
  file_opens : bool;
  file_data : bytes;
}.

(** A path with no entry is a file that does not exist: [QFile::size]
    is 0 and [open] fails. *)
Definition QFile_size (f : option QFile) : Z :=
  match f with Some f => file_size f | None => 0 end.
Definition QFile_open (f : option QFile) : bool :=
  match f with Some f => file_opens f | None => false end.
Definition QFile_readAll (f : option QFile) : bytes :=
  match f with Some f => file_data f | None => [] end.

Definition ReadFile (fs : gmap string QFile) (filepath : string) : bytes :=
  let f := fs !! filepath in
  if (QFile_size f <=? kMaxFileSize) && QFile_open f
  then QFile_readAll f
  else [].

Definition QByteArray_isEmpty (b : bytes) : bool :=
  match b with [] => true | _ => false end.

(** [base::duplicate] makes a copy; values have no identity here. *)
Definition duplicate (b : bytes) : bytes := b.

Definition ReadContent (fs : gmap string QFile) (data : bytes)
    (filepath : string) : bytes :=
  if QByteArray_isEmpty data then ReadFile fs filepath else duplicate data.
End ContentLoader.


(** ** Types of lottie_common.h and the collaborators *)

Record QSize := mk_size { width : Z; height : Z }.

(** [QSize::isEmpty()]: either side is less than one. *)
Definition QSize_isEmpty (s : QSize) : bool :=
  (width s <=? 0) || (height s <=? 0).

(** [Lottie::Information] of lottie_common.h: two [int] counters and a
    [QSize]. *)
Record Information := mk_information {
  frameRate : Z;
  framesCount : Z;
  size : QSize;
}.

Inductive Error := ParseFailed | NotSupported.

(** Everything [lottie_animation.cpp] calls but does not define:
    rlottie's loader, [FrameRequest], [QImage], [Lottie::Cache] and
    [Lottie::SharedState] with the methods used here.  [Put] is the type
    of the persist callback, which this unit only passes along. *)
Class Collaborators := {
  rlottie_Animation : Type;
  loadFromData : bytes -> option rlottie_Animation;
  FrameRequest : Type;
  FrameRequest_new : FrameRequest;
  QImage : Type;
  QImage_new : QImage;
  Put : Type;
  Cache : Type;
  Cache_new : bytes -> FrameRequest -> Put -> Cache;
  Cache_framesCount : Cache -> Z;
  Cache_framesReady : Cache -> Z;
  SharedState : Type;
  SharedState_new : rlottie_Animation -> FrameRequest -> SharedState;
  SharedState_new_cached :
    bytes -> option rlottie_Animation -> Cache -> FrameRequest -> SharedState;
  SharedState_information : SharedState -> Information;
  SharedState_frameForPaint_original : SharedState -> QImage;
  SharedState_start : SharedState -> Z -> SharedState;
  SharedState_nextFrameDisplayTime : SharedState -> Z;
  SharedState_markFrameDisplayed : SharedState -> Z -> Z * SharedState;
}.

(** ** Decode initializer *)

Section DecodeInitializer.
Context `{Limits} `{zlib.Api} `{Collaborators}.

(** [details::InitData]: the owned state, or an error.  The owning
    pointer is never null: every producer below wraps a fresh
    [std::make_unique]. *)
Definition InitData : Type := SharedState + Error.

Definition ContentError (content : bytes) : option Error :=
  if QByteArray_size content >? kMaxFileSize
  then Some ParseFailed
  else None.

(** [CheckSharedState]; its [Expects(state != nullptr)] holds by
    construction, the argument being a state and not a pointer. *)
Definition CheckSharedState (state : SharedState) : InitData :=
  let information := SharedState_information state in
  if (frameRate information =? 0)
     || (framesCount information <=? 0)
     || QSize_isEmpty (size information)
  then inr NotSupported
  else inl state.

(** [details::CreateFromContent]; the [qWarning] on a failed parse
    leaves no trace here. *)
Definition CreateFromContent (content : bytes)
    : Eff (option rlottie_Animation) :=
  emit (EvCreateFromContent content);;
  let string_ := UnpackGzip content in
  Assert (string_size string_ <=? kMaxFileSize);;
  emit (EvLoadFromData string_);;
  let result := loadFromData string_ in
  mret result.

(** [Init(content, request)] *)
Definition Init (content : bytes) (request : FrameRequest) : Eff InitData :=
  match ContentError content with
  | Some error => mret (inr error)
  | None =>
    animation ← CreateFromContent content;
    match animation with
    | Some animation =>
      mret (CheckSharedState (SharedState_new animation request))
    | None => mret (inr ParseFailed)
    end
  end.

(** The [prepare] flag of the cache-aware overload. *)
Definition needs_prepare (cache : Cache) : bool :=
  (Cache_framesCount cache =? 0)
  || (Cache_framesReady cache <? Cache_framesCount cache).

(** [Init(content, put, cached, request)] *)
Definition Init_cached (content : bytes) (put : Put) (cached : bytes)
    (request : FrameRequest) : Eff InitData :=
  match ContentError content with
  | Some error => mret (inr error)
  | None =>
    let cache := Cache_new cached request put in
    let prepare := needs_prepare cache in
    animation ← (if prepare then CreateFromContent content else mret None);
    if negb prepare || bool_decide (is_Some animation)
    then mret (CheckSharedState
                 (SharedState_new_cached content animation cache request))
    else mret (inr ParseFailed)
  end.

Definition ReadThumbnail (content : bytes) : Eff QImage :=
  data ← Init content FrameRequest_new;
  match data with
  | inl state => mret (SharedState_frameForPaint_original state)
  | inr _ => mret QImage_new
  end.

End DecodeInitializer.

(** ** Animation controller *)

(** Modelled from the spec: the one-shot pacing timer, a [base::Timer]
    declared outside this unit.  It is armed by [callOnce], disarmed by
    [cancel] and by going off, and [isActive] tells whether a shot is
    pending.  [timer_armed] keeps every timeout it was armed with,
    oldest first. *)
Record Timer := mk_timer {
  timer_active : bool;
  timer_armed : list Z;
}.

Definition Timer_isActive (t : Timer) : bool := timer_active t.
Definition Timer_callOnce (t : Timer) (timeout : Z) : Timer :=
  mk_timer true (timer_armed t ++ [timeout]).
Definition Timer_cancel (t : Timer) : Timer :=
  mk_timer false (timer_armed t).
(** The shot goes off: the timer is idle again, then its callback runs. *)
Definition Timer_expire (t : Timer) : Timer :=
  mk_timer false (timer_armed t).

(** [Lottie::Update] and what [_updates] has delivered. *)
Inductive Update :=
| InformationUpdate (information : Information)
| DisplayFrameRequest (time : Z).

Inductive Fired :=
| fire (update : Update)
| fire_error (error : Error).

Section Controller.
Context `{Limits} `{zlib.Api} `{Collaborators}.

(** The members of [Animation].  [_state] is the observing pointer to
    the state the renderer pool owns, [_renderer] tells whether the pool
    pointer is set, [_updates] lists the events fired so far and
    [_lifetime] whether the per-cycle [checkStep] subscription exists. *)
Record Animation := mk_animation {
  _timer : Timer;
  _nextFrameTime : Z;
  _state : option SharedState;
  _renderer : bool;
  _updates : list Fired;
  _lifetime : bool;
}.

(** Modelled from the spec: the member initializers are in
    lottie_animation.h; a new controller has no state, no renderer, an
    idle timer and an unknown next frame time. *)
Definition Animation_new : Animation :=
  mk_animation (mk_timer false []) kTimeUnknown None false [] false.

Definition set_timer (a : Animation) (t : Timer) : Animation :=
  mk_animation t (_nextFrameTime a) (_state a) (_renderer a)
               (_updates a) (_lifetime a).
Definition set_nextFrameTime (a : Animation) (t : Z) : Animation :=
  mk_animation (_timer a) t (_state a) (_renderer a)
               (_updates a) (_lifetime a).
Definition set_state (a : Animation) (s : option SharedState) : Animation :=
  mk_animation (_timer a) (_nextFrameTime a) s (_renderer a)
               (_updates a) (_lifetime a).
Definition updates_fire (a : Animation) (f : Fired) : Animation :=
  mk_animation (_timer a) (_nextFrameTime a) (_state a) (_renderer a)
               (_updates a ++ [f]) (_lifetime a).

(** [Animation::ready()] *)
Definition ready (a : Animation) : bool := _renderer a.

(** [Animation::parseDone]; [now] is the reading of [crl::now()].  The
    state is started, handed to the renderer pool and kept as [_state],
    [InformationUpdate] is fired and the [checkStep] subscription
    made. *)
Definition parseDone (a : Animation) (state : SharedState) (now : Z)
    : Animation :=
  let information := SharedState_information state in
  let state := SharedState_start state now in
  mk_animation (_timer a) (_nextFrameTime a) (Some state) true
               (_updates a ++ [fire (InformationUpdate information)]) true.

Definition parseFailed (a : Animation) (error : Error) : Animation :=
  updates_fire a (fire_error error).

Definition initDone (a : Animation) (data : InitData) (now : Z) : Animation :=
  match data with
  | inl state => parseDone a state now
  | inr error => parseFailed a error
  end.

(** [Animation::markFrameDisplayed]; [None] when [Expects] fails. *)
Definition markFrameDisplayed (a : Animation) (now : Z)
    : option (Z * Animation) :=
  if negb (_renderer a) then None
  else match _state a with
  | None => None
  | Some state =>
    let '(result, state) := SharedState_markFrameDisplayed state now in
    Some (result, set_state a (Some state))
  end.

(** [Animation::checkNextFrameRender]; [now] is what [crl::now()]
    returns inside it. *)
Definition checkNextFrameRender (a : Animation) (now : Z)
    : option Animation :=
  if _nextFrameTime a =? kTimeUnknown then None
  else if now <? _nextFrameTime a then
    if negb (Timer_isActive (_timer a)) then
      Some (set_timer a
              (Timer_callOnce (_timer a) (to_int64 (_nextFrameTime a - now))))
    else Some a
  else
    let a := set_timer a (Timer_cancel (_timer a)) in
    let a := set_nextFrameTime a kTimeUnknown in
    '(position, a) ← markFrameDisplayed a now;
    Some (updates_fire a (fire (DisplayFrameRequest position))).

(** [checkStep] and [checkNextFrameAvailability] call each other; the
    outer [option] is the fuel of that recursion, the inner one the
    [Expects] checks. *)
Fixpoint checkStep_fuel (fuel : nat) (a : Animation) (now : Z)
    : option (option Animation) :=
  match fuel with
  | O => None
  | S fuel =>
    if negb (_nextFrameTime a =? kTimeUnknown) then
      Some (checkNextFrameRender a now)
    else
      (* checkNextFrameAvailability *)
      if negb (_renderer a) then Some None
      else match _state a with
      | None => Some None
      | Some state =>
        let a :=
          set_nextFrameTime a (SharedState_nextFrameDisplayTime state) in
        if negb (_nextFrameTime a =? kTimeUnknown)
        then checkStep_fuel fuel a now
        else Some (Some a)
      end
  end.

(** Two levels of that recursion are all there are: the second
    [checkStep] finds the time known. *)
Definition checkStep (a : Animation) (now : Z) : option Animation :=
  mjoin (checkStep_fuel 2 a now).

(** What holds of a controller between calls: a set renderer comes with
    a state, and the next frame time is known only when both are
    there. *)
Definition controller_invariant (a : Animation) : Prop :=
  (_renderer a = true -> is_Some (_state a))
  /\ (_nextFrameTime a <> kTimeUnknown -> _renderer a = true).

(** The timer's callback, [[=] { checkNextFrameRender(); }], run when
    the pending shot goes off. *)
Definition timer_fired (a : Animation) (now : Z) : option Animation :=
  if negb (Timer_isActive (_timer a)) then Some a
  else checkNextFrameRender (set_timer a (Timer_expire (_timer a))) now.


End Controller.

#[global] Arguments checkStep : simpl never.
#[global] Arguments timer_fired : simpl never.

(** ** Construction and the thread hand-over

    Modelled from the spec: [crl::async] and [crl::on_main] belong to
    the crl library.  [crl::async(f)] queues [f] for some worker thread;
    [crl::on_main(weak, f)] queues [f] for the owning thread behind a
    liveness guard, so that [f] is dropped unrun when the object behind
    [weak] is gone by then.  Queued closures run in any order. *)

Section Async.
Context `{Limits} `{zlib.Api} `{Collaborators}.

(** The closures the two constructors create. *)
Inductive Task :=
| AsyncInit (content : bytes) (request : FrameRequest)
| GetCached (put : Put) (content : bytes) (request : FrameRequest)
| AsyncInitCached (content : bytes) (put : Put) (cached : bytes)
    (request : FrameRequest)
| OnMain (data : InitData).

(** One controller and the closures made on its behalf.  [object] is
    [None] once the destructor ran.  [initDone_calls] counts the
    executions of [initDone], [dropped] the guarded closures discarded
    because the object was gone. *)
Record System := mk_system {
  object : option Animation;
  queue : list Task;
  initDone_calls : nat;
  dropped : nat;
  decode_log : list Event;
}.

(** [Animation(content, request)] *)
Definition construct (content : bytes) (request : FrameRequest) : System :=
  mk_system (Some Animation_new) [AsyncInit content request] 0 0 [].

(** [Animation(get, put, content, request)]: [get] receives the
    continuation and calls it, at most once, when the cached bytes are
    there. *)
Definition construct_cached (put : Put) (content : bytes)
    (request : FrameRequest) : System :=
  mk_system (Some Animation_new) [GetCached put content request] 0 0 [].

(** [FromContent] and [FromCached] read the content and construct. *)
Definition FromContent (fs : gmap string QFile) (data : bytes)
    (filepath : string) (request : FrameRequest) : System :=
  construct (ReadContent fs data filepath) request.

Definition FromCached (fs : gmap string QFile) (put : Put) (data : bytes)
    (filepath : string) (request : FrameRequest) : System :=
  construct_cached put (ReadContent fs data filepath) request.

(** The system is fresh out of one of the two constructors. *)
Definition constructed (s : System) : Prop :=
  (exists content request, s = construct content request)
  \/ (exists put content request, s = construct_cached put content request).

(** What can happen next: a worker runs the closure at [i]; the cache
    collaborator delivers [cached] to the continuation at [i]; the
    owning thread runs the guarded closure at [i], or a [checkStep]
    cycle, or the timer's shot, each with its clock reading; the
    controller is destroyed. *)
Inductive Label :=
| Worker (i : nat)
| Deliver (i : nat) (cached : bytes)
| Dispatch (i : nat) (now : Z)
| Tick (now : Z)
| TimerShot (now : Z)
| Destroy.

Definition with_object (s : System) (a : option Animation) : System :=
  mk_system a (queue s) (initDone_calls s) (dropped s) (decode_log s).

(** A worker finished [Init]: its result replaces the closure at [i],
    now queued for the owning thread. *)
Definition worker_done (s : System) (i : nat) (run : Eff InitData)
    : option System :=
  data ← evalue run;
  Some (mk_system (object s) (<[i := OnMain data]> (queue s))
          (initDone_calls s) (dropped s) (decode_log s ++ elog run)).

Definition step (s : System) (l : Label) : option System :=
  match l with
  | Worker i =>
    match queue s !! i with
    | Some (AsyncInit content request) =>
      worker_done s i (Init content request)
    | Some (AsyncInitCached content put cached request) =>
      worker_done s i (Init_cached content put cached request)
    | _ => None
    end
  | Deliver i cached =>
    match queue s !! i with
    | Some (GetCached put content request) =>
      Some (mk_system (object s)
              (<[i := AsyncInitCached content put cached request]> (queue s))
              (initDone_calls s) (dropped s) (decode_log s))
    | _ => None
    end
  | Dispatch i now =>
    match queue s !! i with
    | Some (OnMain data) =>
      match object s with
      | Some a =>
        Some (mk_system (Some (initDone a data now)) (delete i (queue s))
                (S (initDone_calls s)) (dropped s) (decode_log s))
      | None =>
        Some (mk_system None (delete i (queue s))
                (initDone_calls s) (S (dropped s)) (decode_log s))
      end
    | _ => None
    end
  | Tick now =>
    a ← object s;
    if _lifetime a then
      a ← checkStep a now; Some (with_object s (Some a))
    else None
  | TimerShot now =>
    a ← object s;
    if Timer_isActive (_timer a) then
      a ← timer_fired a now; Some (with_object s (Some a))
    else None
  | Destroy =>
    a ← object s; Some (with_object s None)
  end.

Fixpoint run (s : System) (ls : list Label) : option System :=
  match ls with
  | [] => Some s
  | l :: ls => s ← step s l; run s ls
  end.

(** What the hand-over keeps true: the one closure made for the
    controller is queued, or ran [initDone], or was dropped; and only a
    destroyed controller has its closure dropped. *)
Definition hand_over_invariant (s : System) : Prop :=
  (length (queue s) + initDone_calls s + dropped s = 1)%nat
  /\ ((0 < dropped s)%nat -> object s = None).

End Async.

(** ** Painting, teardown and what a run keeps true *)

(** What the controller tells the renderer pool. *)
Inductive RendererCall :=
| append
| remove
| updateFrameRequest
| frameShown.

(** The rest of what [lottie_animation.cpp] uses of its collaborators:
    [FrameRequest]'s comparison, the [request] field of the frame for
    paint, [PrepareFrameByRequest] and [SharedState::markFrameShown]. *)
Class Painting `{Collaborators} := {
  FrameRequest_eqb : FrameRequest -> FrameRequest -> bool;
  Frame_request : SharedState -> FrameRequest;
  Frame_set_request : SharedState -> FrameRequest -> SharedState;
  PrepareFrameByRequest : SharedState -> bool -> QImage;
  SharedState_markFrameShown : SharedState -> Z * SharedState;
}.

(** [frame->request] is a plain field and [FrameRequest] compares
    equal to itself: what is assigned is what is read back. *)
Definition request_field_laws `{Painting} : Prop :=
  (forall request, FrameRequest_eqb request request = true)
  /\ (forall state request,
        Frame_request (Frame_set_request state request) = request).

Section Painting.
Context `{Limits} `{zlib.Api} `{Collaborators} `{!Painting}.

(** [Animation::frame]: the image, the controller with the frame's
    request updated, and the calls made to the renderer pool; [None]
    when [Expects] fails. *)
Definition frame (a : Animation) (request : FrameRequest)
    : option (QImage * Animation * list RendererCall) :=
  if negb (_renderer a) then None
  else match _state a with
  | None => None
  | Some state =>
    let changed := negb (FrameRequest_eqb (Frame_request state) request) in
    if changed then
      let state := Frame_set_request state request in
      Some (PrepareFrameByRequest state (negb changed),
            set_state a (Some state), [updateFrameRequest])
    else
      Some (PrepareFrameByRequest state (negb changed), a, [])
  end.

(** [Animation::markFrameShown] *)
Definition markFrameShown (a : Animation)
    : option (Z * Animation * list RendererCall) :=
  if negb (_renderer a) then None
  else match _state a with
  | None => None
  | Some state =>
    let '(result, state) := SharedState_markFrameShown state in
    Some (result, set_state a (Some state), [frameShown])
  end.

End Painting.

Section Invariants.
Context `{Limits} `{zlib.Api} `{Collaborators}.

(** [Animation::~Animation]: the state it removes from the pool, if
    any; [None] when its [Assert] fails. *)
Definition Animation_destroy (a : Animation) : option (option SharedState) :=
  if _renderer a then
    match _state a with
    | Some state => Some (Some state)
    | None => None
    end
  else Some None.

(** A run of [DisplayFrameRequest] events. *)
Definition displayed (positions : list Z) : list Fired :=
  (fun position => fire (DisplayFrameRequest position)) <$> positions.

(** The stream of a controller: nothing or one error while it is not
    ready, the information followed by display requests once it is. *)
Definition updates_shape (a : Animation) : Prop :=
  if _renderer a then
    exists information positions,
      _updates a = fire (InformationUpdate information) :: displayed positions
  else
    _updates a = [] \/ exists error, _updates a = [fire_error error].

(** What every method keeps true of the pacing fields. *)
Definition pacing_invariant (a : Animation) : Prop :=
  _lifetime a = _renderer a
  /\ (_renderer a = true -> is_Some (_state a))
  /\ (_nextFrameTime a <> kTimeUnknown -> _renderer a = true)
  /\ (Timer_isActive (_timer a) = true -> _nextFrameTime a <> kTimeUnknown)
  /\ (_renderer a = false -> timer_armed (_timer a) = [])
  /\ updates_shape a.

Definition system_invariant (s : System) : Prop :=
  hand_over_invariant s
  /\ forall a, object s = Some a ->
       pacing_invariant a
       /\ (initDone_calls s = 0%nat <-> _updates a = []).

(** The controllers on which [checkNextFrameRender] is called in a
    system: the subscribed controller itself when [checkStep] finds the
    time known; the controller with the due time just stored by
    [checkNextFrameAvailability], which then goes through [checkStep]
    again; and the controller whose pending shot has just gone off,
    from the timer's callback. *)
Inductive render_call (s : System) : Animation -> Prop :=
| call_checkStep (a : Animation) :
    object s = Some a ->
    _lifetime a = true ->
    _nextFrameTime a <> kTimeUnknown ->
    render_call s a
| call_availability (a : Animation) (state : SharedState) :
    object s = Some a ->
    _lifetime a = true ->
    _nextFrameTime a = kTimeUnknown ->
    _state a = Some state ->
    SharedState_nextFrameDisplayTime state <> kTimeUnknown ->
    render_call s
      (set_nextFrameTime a (SharedState_nextFrameDisplayTime state))
| call_timer (a : Animation) :
    object s = Some a ->
    Timer_isActive (_timer a) = true ->
    render_call s (set_timer a (Timer_expire (_timer a))).

(** A log with at most one [loadFromData], made after
    [CreateFromContent] was entered for [content] and on no more than
    [kMaxFileSize] bytes, those of [UnpackGzip content]. *)
Definition bounded_decode (content : bytes) (log : list Event) : Prop :=
  (loads log <= 1)%nat
  /\ forall data, EvLoadFromData data ∈ log ->
       data = UnpackGzip content
       /\ string_size data <= kMaxFileSize
       /\ QByteArray_size content <= kMaxFileSize
       /\ EvCreateFromContent content ∈ log.

(** The closures that have not been through [Init] yet. *)
Definition awaits_decode (t : Task) : bool :=
  match t with OnMain _ => false | _ => true end.

Definition decode_invariant (s : System) : Prop :=
  (length (queue s) <= 1)%nat
  /\ (exists content, bounded_decode content (decode_log s))
  /\ (forall t, t ∈ queue s -> awaits_decode t = true -> decode_log s = []).

End Invariants.

(** ** Sample collaborators

    Concrete instances of the interfaces, small enough to run: a
    64-byte size ceiling, an inflate for gzip members made of stored
    blocks, and a four-byte document format. *)

Module sample.

#[export] Instance limits : Limits :=
  {| kMaxFileSize := 64; kTimeUnknown := - 2 ^ 63 |}.

Definition u8 (b : byte) : Z := Z.of_N (Byte.to_N b).
Definition le16 (b0 b1 : byte) : Z := Z.lor (u8 b0) (Z.shiftl (u8 b1) 8).
Definition le32 (b0 b1 b2 b3 : byte) : Z :=
  Z.lor (le16 b0 b1) (Z.shiftl (le16 b2 b3) 16).

(** CRC-32 of RFC 1952, bit by bit. *)
Definition crc_shift (c : Z) : Z :=
  if Z.odd c then Z.lxor (Z.shiftr c 1) 0xEDB88320 else Z.shiftr c 1.
Definition crc_byte (c : Z) (b : byte) : Z :=
  Nat.iter 8 crc_shift (Z.lxor c (u8 b)).
Definition crc32 (data : bytes) : Z :=
  Z.lxor (fold_left crc_byte data 0xFFFFFFFF) 0xFFFFFFFF.

(** How far a decoder got: the member ended, the input ended first, or
    the input broke the format. *)
Inductive Status := Finished | NeedInput | Corrupt.

(** The gzip trailer: CRC-32 and length of the output, checked in that
    order as the bytes arrive. *)
Definition trailer (input out : bytes) : Status * bytes :=
  match input with
  | c0 :: c1 :: c2 :: c3 :: rest =>
    if negb (le32 c0 c1 c2 c3 =? crc32 out) then (Corrupt, out)
    else match rest with
    | n0 :: n1 :: n2 :: n3 :: _ =>
      if le32 n0 n1 n2 n3 =? Z.of_nat (length out) mod 2 ^ 32
      then (Finished, out)
      else (Corrupt, out)
    | _ => (NeedInput, out)
    end
  | _ => (NeedInput, out)
  end.

(** A run of stored deflate blocks (RFC 1951, 3.2.4).  A block of a
    compressed type lies outside this decoder and counts as [Corrupt];
    bytes of a block cut short are output as far as they go. *)
Fixpoint stored_blocks (fuel : nat) (input out : bytes) : Status * bytes :=
  match fuel with
  | O => (NeedInput, out)
  | S fuel =>
    match input with
    | [] => (NeedInput, out)
    | head :: rest =>
      if negb (Z.land (Z.shiftr (u8 head) 1) 3 =? 0) then (Corrupt, out)
      else match rest with
      | l0 :: l1 :: n0 :: n1 :: body =>
        let len := le16 l0 l1 in
        if negb (len =? Z.lxor (le16 n0 n1) 0xFFFF) then (Corrupt, out)
        else
          let data := take (Z.to_nat len) body in
          let out := out ++ data in
          if Z.of_nat (length data) <? len then (NeedInput, out)
          else if Z.testbit (u8 head) 0
          then trailer (drop (Z.to_nat len) body) out
          else stored_blocks fuel (drop (Z.to_nat len) body) out
      | _ => (NeedInput, out)
      end
    end
  end.

(** One gzip member (RFC 1952) with no optional header field; a member
    with flags set lies outside this decoder and counts as [Corrupt]. *)
Definition member (input : bytes) : Status * bytes :=
  match input with
  | id1 :: id2 :: rest =>
    if negb ((u8 id1 =? 0x1F) && (u8 id2 =? 0x8B)) then (Corrupt, [])
    else match rest with
    | cm :: flg :: rest =>
      if negb ((u8 cm =? 8) && (u8 flg =? 0)) then (Corrupt, [])
      else match rest with
      | _ :: _ :: _ :: _ :: _ :: _ :: deflate =>
        stored_blocks (length deflate) deflate []
      | _ => (NeedInput, [])
      end
    | _ => (NeedInput, [])
    end
  | _ => (NeedInput, [])
  end.

(** [inflate] over [member], with zlib's return codes: [Z_STREAM_END]
    when the member ended within the room given, [Z_OK] when input or
    room ran out after some progress, [Z_BUF_ERROR] when nothing could
    be done, [Z_DATA_ERROR] on a format error.  What is left of the
    input is not tracked. *)
Definition gzip_inflate (s : z_stream) (flush : Z) : Z * z_stream * bytes :=
  let input := take (Z.to_nat (avail_in s)) (next_in s) in
  let '(status, out) := member input in
  let room := Z.to_nat (avail_out s) in
  let written := take room out in
  let res :=
    if (room <? length out)%nat then Z_OK
    else match status with
    | Finished => Z_STREAM_END
    | Corrupt => Z_DATA_ERROR
    | NeedInput =>
      match input with [] => Z_BUF_ERROR | _ => Z_OK end
    end in
  (res, mk_stream 0 [] (avail_out s - Z.of_nat (length written)), written).

#[export] Instance gzip : zlib.Api :=
  {| inflateInit2 := fun _ => Z_OK; inflate := gzip_inflate |}.

(** A zlib whose stream setup fails for lack of memory. *)
Definition no_memory : zlib.Api :=
  {| inflateInit2 := fun _ => Z_MEM_ERROR; inflate := gzip_inflate |}.

(** The sample document format: four bytes, frame rate, frame count,
    width and height. *)
Definition parse_document (data : bytes) : option Information :=
  match data with
  | [r; c; w; h] => Some (mk_information (u8 r) (u8 c) (mk_size (u8 w) (u8 h)))
  | _ => None
  end.

(** The sample cache: two bytes, frames in all and frames ready. *)
Record SampleCache := mk_cache { cache_count : Z; cache_ready : Z }.

Definition parse_cache (cached : bytes) : SampleCache :=
  match cached with
  | [c; r] => mk_cache (u8 c) (u8 r)
  | _ => mk_cache 0 0
  end.

(** The sample playback state: the metadata and the clock reading at
    [start]; its playback position is the time elapsed since then. *)
Record SampleState := mk_state {
  state_information : Information;
  state_started : Z;
  state_displayed : list Z;
}.

Definition sample_markFrameDisplayed (s : SampleState) (now : Z)
    : Z * SampleState :=
  (now - Z.max 0 (state_started s),
   mk_state (state_information s) (state_started s)
            (state_displayed s ++ [now])).

(** The next frame is due one frame duration after the last display. *)
Definition sample_nextFrameDisplayTime (s : SampleState) : Z :=
  let rate := frameRate (state_information s) in
  Z.max 0 (state_started s)
  + Z.of_nat (length (state_displayed s)) * (1000 / rate).

#[export] Instance collaborators : Collaborators := {|
  rlottie_Animation := Information;
  loadFromData := parse_document;
  FrameRequest := QSize;
  FrameRequest_new := mk_size 0 0;
  QImage := option QSize;
  QImage_new := None;
  Put := unit;
  Cache := SampleCache;
  Cache_new := fun cached _ _ => parse_cache cached;
  Cache_framesCount := cache_count;
  Cache_framesReady := cache_ready;
  SharedState := SampleState;
  SharedState_new := fun animation _ => mk_state animation 0 [];
  SharedState_new_cached := fun _ animation cache _ =>
    match animation with
    | Some information => mk_state information 0 []
    | None =>
      mk_state (mk_information 30 (cache_count cache) (mk_size 100 100)) 0 []
    end;
  SharedState_information := state_information;
  SharedState_frameForPaint_original := fun s =>
    Some (size (state_information s));
  SharedState_start := fun s now =>
    mk_state (state_information s) now (state_displayed s);
  SharedState_nextFrameDisplayTime := sample_nextFrameDisplayTime;
  SharedState_markFrameDisplayed := sample_markFrameDisplayed;
|}.

(** "hi" as gzip writes it at compression level 0. *)
Definition hi : bytes := ["h"; "i"]%byte.
Definition hi_gz : bytes :=
  [x1f; x8b; x08; x00; x00; x00; x00; x00; x04; x03;
   x01; x02; x00; xfd; xff; "h"; "i";
   xac; x2a; x93; xd8; x02; x00; x00; x00]%byte.

(** Sixty-five letters packed the same way: one byte more than the
    scratch buffer can show to be complete. *)
Definition long_gz : bytes :=
  [x1f; x8b; x08; x00; x00; x00; x00; x00; x04; x03;
   x01; x41; x00; xbe; xff]%byte
  ++ replicate 65 "a"%byte
  ++ [x5d; xaf; x3f; xf3; x41; x00; x00; x00]%byte.

(** A document: 30 frames per second, 10 frames, 100 by 100. *)
Definition document : bytes := [x1e; x0a; x64; x64].

(** The persist callback of the samples keeps nothing. *)
Definition discard : @Put collaborators := tt.

(** A document whose frame count is zero. *)
Definition no_frames : bytes := [x1e; x00; x64; x64].

(** The controller of [document] after [parseDone] at 5 and a tick at
    3: its first frame is due at 5 and the timer is armed for 2. *)
Definition armed : Animation :=
  mk_animation (mk_timer true [2]) 5
    (Some (mk_state (mk_information 30 10 (mk_size 100 100)) 5 []))
    true
    [fire (InformationUpdate (mk_information 30 10 (mk_size 100 100)))]
    true.

(** The controller of [document] right after [parseDone] at 5: ready,
    no next frame time known yet. *)
Definition started : Animation :=
  mk_animation (mk_timer false []) kTimeUnknown
    (Some (mk_state (mk_information 30 10 (mk_size 100 100)) 5 []))
    true
    [fire (InformationUpdate (mk_information 30 10 (mk_size 100 100)))]
    true.

(** A sample state that also keeps the request of its frame for paint,
    and the collaborators over it. *)
Record PaintedState := mk_painted {
  painted_state : SampleState;
  painted_request : QSize;
}.

Definition on_state (f : SampleState -> SampleState) (s : PaintedState)
    : PaintedState :=
  mk_painted (f (painted_state s)) (painted_request s).

Definition painted : Collaborators := {|
  rlottie_Animation := Information;
  loadFromData := parse_document;
  FrameRequest := QSize;
  FrameRequest_new := mk_size 0 0;
  QImage := option QSize;
  QImage_new := None;
  Put := unit;
  Cache := SampleCache;
  Cache_new := fun cached _ _ => parse_cache cached;
  Cache_framesCount := cache_count;
  Cache_framesReady := cache_ready;
  SharedState := PaintedState;
  SharedState_new := fun animation request =>
    mk_painted (mk_state animation 0 []) request;
  SharedState_new_cached := fun _ animation cache request =>
    match animation with
    | Some information => mk_painted (mk_state information 0 []) request
    | None =>
      mk_painted
        (mk_state (mk_information 30 (cache_count cache) (mk_size 100 100))
           0 [])
        request
    end;
  SharedState_information := fun s => state_information (painted_state s);
  SharedState_frameForPaint_original := fun s =>
    Some (size (state_information (painted_state s)));
  SharedState_start := fun s now =>
    on_state (fun st =>
      mk_state (state_information st) now (state_displayed st)) s;
  SharedState_nextFrameDisplayTime := fun s =>
    sample_nextFrameDisplayTime (painted_state s);
  SharedState_markFrameDisplayed := fun s now =>
    ((sample_markFrameDisplayed (painted_state s) now).1,
     on_state (fun st => (sample_markFrameDisplayed st now).2) s);
|}.

Definition QSize_eqb (a b : QSize) : bool :=
  (width a =? width b) && (height a =? height b).

(** The painted frame takes the size asked for; marking a frame shown
    reports how many were displayed. *)
#[export] Instance painting : @Painting painted :=
  @Build_Painting painted
    QSize_eqb
    painted_request
    (fun s request => mk_painted (painted_state s) request)
    (fun s _ => Some (painted_request s))
    (fun s => (Z.of_nat (length (state_displayed (painted_state s))), s)).

(** The painted controller of [document] right after [parseDone] at 5,
    and the same once asked for a frame of 64 by 64. *)
Definition on_screen : @Animation painted :=
  @mk_animation painted (mk_timer false []) kTimeUnknown
    (Some (mk_painted
             (mk_state (mk_information 30 10 (mk_size 100 100)) 5 [])
             (mk_size 0 0)))
    true
    [fire (InformationUpdate (mk_information 30 10 (mk_size 100 100)))]
    true.
Definition resized : @Animation painted :=
  @mk_animation painted (mk_timer false []) kTimeUnknown
    (Some (mk_painted
             (mk_state (mk_information 30 10 (mk_size 100 100)) 5 [])
             (mk_size 64 64)))
    true
    [fire (InformationUpdate (mk_information 30 10 (mk_size 100 100)))]
    true.

(** A file system with one readable document and one oversized file. *)
Definition files : gmap string QFile :=
  {[ "sticker.tgs" := mk_file 4 true document;
     "huge.tgs" := mk_file 65 true (replicate 65 "a"%byte) ]}.

End sample.


(** * Properties *)

(** ** Machine integers *)

Lemma to_uInt_small (z : Z) : 0 <= z < 2 ^ 32 -> to_uInt z = z.
Proof. intros Hz. unfold to_uInt. apply Z.mod_small. exact Hz. Qed.

Lemma to_size_t_small (z : Z) : 0 <= z < 2 ^ 64 -> to_size_t z = z.
Proof. intros Hz. unfold to_size_t. apply Z.mod_small. exact Hz. Qed.


Lemma string_fill_size (n : Z) : 0 <= n -> string_size (string_fill n) = n.
Proof.
  intros Hn. unfold string_size, string_fill.
  rewrite length_replicate. lia.
Qed.

Lemma string_resize_shrink (s : bytes) (n : Z) :
  0 <= n <= string_size s -> string_resize s n = take (Z.to_nat n) s.
Proof.
  unfold string_resize, string_size. intros Hn.
  replace (Z.to_nat n - length s)%nat with 0%nat by lia.
  apply app_nil_r.
Qed.

(** ** The effect monad *)

Section EffFacts.
Context {A B : Type}.

Lemma elog_bind (m : Eff A) (k : A -> Eff B) :
  elog (m ≫= k) =
  elog m ++ match evalue m with Some a => elog (k a) | None => [] end.
Proof.
  destruct m as [log [a|]]; cbn.
  - destruct (k a) as [log' r]. reflexivity.
  - symmetry. apply app_nil_r.
Qed.

Lemma evalue_bind (m : Eff A) (k : A -> Eff B) :
  evalue (m ≫= k) = evalue m ≫= fun a => evalue (k a).
Proof.
  destruct m as [log [a|]]; cbn; [|reflexivity].
  destruct (k a) as [log' r]. reflexivity.
Qed.

End EffFacts.

(** ** UnpackGzip *)

Section ContentLoaderFacts.
Context `{Limits} `{zlib.Api}.

(** With room left the loop condition is false and the loop is over. *)
Lemma UnpackGzip_loop_exit fuel original result stream :
  avail_out stream <> 0 ->
  UnpackGzip_loop fuel original result stream = Some (inr (stream, result)).
Proof.
  intros Hne. destruct fuel; cbn;
    destruct (Z.eqb_spec (avail_out stream) 0); done.
Qed.

(** The loop body runs at most once: any positive fuel gives the result
    of fuel one, and that is a result. *)
Lemma UnpackGzip_loop_once fuel original result stream :
  UnpackGzip_loop (S fuel) original result stream
  = UnpackGzip_loop 1 original result stream
  /\ is_Some (UnpackGzip_loop 1 original result stream).
Proof.
  cbn [UnpackGzip_loop].
  destruct (Z.eqb_spec (avail_out stream) 0) as [Hz|Hnz]; cbn [negb].
  2: { split; [reflexivity | eexists; reflexivity]. }
  destruct (inflate _ Z_NO_FLUSH) as [[res stream'] written].
  destruct (negb (res =? Z_OK) && negb (res =? Z_STREAM_END)).
  { split; [reflexivity | eexists; reflexivity]. }
  destruct (Z.eqb_spec (avail_out stream') 0) as [Hz'|Hnz'].
  { split; [reflexivity | eexists; reflexivity]. }
  rewrite !UnpackGzip_loop_exit by assumption.
  split; [reflexivity | eexists; reflexivity].
Qed.

(** [UnpackGzip] returns: every positive fuel yields its value. *)
Lemma UnpackGzip_fuel_enough fuel bytes_ :
  UnpackGzip_fuel (S fuel) bytes_ = Some (UnpackGzip bytes_).
Proof.
  unfold UnpackGzip.
  assert (Hsame : UnpackGzip_fuel (S fuel) bytes_ = UnpackGzip_fuel 1 bytes_).
  { unfold UnpackGzip_fuel.
    destruct (negb (inflateInit2 (16 + MAX_WBITS) =? Z_OK)); [reflexivity|].
    destruct (UnpackGzip_loop_once fuel bytes_
                (string_fill (kMaxFileSize + 1))
                (mk_stream (to_uInt (QByteArray_size bytes_)) bytes_ 0))
      as [-> _].
    reflexivity. }
  rewrite Hsame. unfold UnpackGzip_fuel.
  destruct (negb (inflateInit2 (16 + MAX_WBITS) =? Z_OK)); [reflexivity|].
  destruct (UnpackGzip_loop_once 0 bytes_
              (string_fill (kMaxFileSize + 1))
              (mk_stream (to_uInt (QByteArray_size bytes_)) bytes_ 0))
    as [_ [r Hr]].
  rewrite Hr. destruct r as [early|[stream result]]; reflexivity.
Qed.

(** [UnpackGzip] by cases on the codes zlib hands back. *)
Lemma UnpackGzip_cases bytes_ :
  UnpackGzip bytes_ =
  if negb (inflateInit2 (16 + MAX_WBITS) =? Z_OK) then bytes_
  else
    let '(res, stream, written) := UnpackGzip_call bytes_ in
    let result :=
      written ++ drop (length written) (string_fill (kMaxFileSize + 1)) in
    if negb (res =? Z_OK) && negb (res =? Z_STREAM_END) then bytes_
    else if avail_out stream =? 0 then bytes_
    else string_resize result
           (to_size_t (string_size result - avail_out stream)).
Proof.
  unfold UnpackGzip, UnpackGzip_fuel, UnpackGzip_call.
  destruct (negb (inflateInit2 (16 + MAX_WBITS) =? Z_OK)); [reflexivity|].
  cbn [UnpackGzip_loop avail_out avail_in next_in].
  rewrite Z.eqb_refl. cbn [negb].
  destruct (inflate _ Z_NO_FLUSH) as [[res stream] written].
  destruct (negb (res =? Z_OK) && negb (res =? Z_STREAM_END)); [reflexivity|].
  destruct (Z.eqb_spec (avail_out stream) 0) as [Hz|Hnz]; [reflexivity|].
  cbn. destruct (Z.eqb_spec (avail_out stream) 0); done.
Qed.

(** When zlib keeps its promise about [avail_out], a successful pass
    returns exactly the bytes [inflate] stored, and they leave at least
    one byte of the scratch buffer unused. *)
Lemma UnpackGzip_success bytes_ res stream written :
  kMaxFileSize_is_int ->
  output_contract ->
  inflateInit2 (16 + MAX_WBITS) = Z_OK ->
  UnpackGzip_call bytes_ = (res, stream, written) ->
  res = Z_OK \/ res = Z_STREAM_END ->
  avail_out stream <> 0 ->
  UnpackGzip bytes_ = written /\ string_size written <= kMaxFileSize.
Proof.
  intros Hint Hcontract Hinit Hcall Hres Hroom.
  pose proof Hcall as Hcall'.
  unfold UnpackGzip_call in Hcall'.
  unfold kMaxFileSize_is_int in Hint.
  rewrite string_fill_size, (to_uInt_small (kMaxFileSize + 1)) in Hcall'
    by lia.
  specialize (Hcontract
    (mk_stream (to_uInt (QByteArray_size bytes_)) bytes_ (kMaxFileSize + 1))
    Z_NO_FLUSH).
  rewrite Hcall' in Hcontract. cbn [avail_out] in Hcontract.
  destruct Hcontract as [Hpos Hout]; [lia|].
  rewrite UnpackGzip_cases, Hinit, Hcall. cbn [negb Z.eqb Z_OK].
  replace (negb (res =? Z_OK) && negb (res =? Z_STREAM_END)) with false
    by (destruct Hres as [-> | ->]; reflexivity).
  destruct (Z.eqb_spec (avail_out stream) 0) as [|_]; [done|].
  assert (Hlen : string_size
            (written ++ drop (length written) (string_fill (kMaxFileSize + 1)))
          = kMaxFileSize + 1).
  { unfold string_size, string_fill.
    rewrite length_app, length_drop, length_replicate. lia. }
  rewrite Hlen, to_size_t_small by lia.
  rewrite string_resize_shrink by lia.
  replace (Z.to_nat (kMaxFileSize + 1 - avail_out stream))
    with (length written) by lia.
  rewrite take_app_length. unfold string_size. split; [reflexivity | lia].
Qed.

End ContentLoaderFacts.

Section ContentLoaderClaims.
Context `{Limits} `{zlib.Api}.

(** The three ways back to the untouched input. *)
Lemma UnpackGzip_unchanged (bytes_ : bytes) :
  inflateInit2 (16 + MAX_WBITS) <> Z_OK
  \/ inflate_rejects bytes_
  \/ avail_out (UnpackGzip_call bytes_).1.2 = 0 ->
  UnpackGzip bytes_ = bytes_.
Proof.
  intros Hcase. rewrite UnpackGzip_cases.
  destruct (Z.eqb_spec (inflateInit2 (16 + MAX_WBITS)) Z_OK) as [Hok|Hno];
    cbn [negb]; [|reflexivity].
  unfold inflate_rejects in Hcase.
  destruct (UnpackGzip_call bytes_) as [[res stream] written].
  cbn [fst snd] in Hcase.
  destruct (Z.eqb_spec res Z_OK) as [Hres|Hres]; cbn [negb andb].
  - destruct (Z.eqb_spec (avail_out stream) 0); [reflexivity|].
    destruct Hcase as [?|[[? _]|?]]; done.
  - destruct (Z.eqb_spec res Z_STREAM_END) as [Hend|Hend]; cbn [negb];
      [|reflexivity].
    destruct (Z.eqb_spec (avail_out stream) 0); [reflexivity|].
    destruct Hcase as [?|[[_ ?]|?]]; done.
Qed.

(** C5: whenever the stream cannot be set up, [inflate] answers with
    anything but [Z_OK] or [Z_STREAM_END], or the single pass leaves no
    room in the scratch buffer of [kMaxFileSize + 1] bytes, [UnpackGzip]
    returns its input unchanged; it returns, whatever the fuel, and has
    no way to raise. *)
Theorem UnpackGzip_falls_back (bytes_ : bytes) :
  inflateInit2 (16 + MAX_WBITS) <> Z_OK
  \/ inflate_rejects bytes_
  \/ avail_out (UnpackGzip_call bytes_).1.2 = 0 ->
  UnpackGzip bytes_ = bytes_
  /\ forall fuel, UnpackGzip_fuel (S fuel) bytes_ = Some bytes_.
Proof.
  intros Hcase. apply UnpackGzip_unchanged in Hcase.
  split; [exact Hcase|].
  intros fuel. rewrite UnpackGzip_fuel_enough. congruence.
Qed.

(** Under zlib's promise the size bound carries over from the input to
    the output. *)
Lemma UnpackGzip_size (content : bytes) :
  kMaxFileSize_is_int ->
  output_contract ->
  QByteArray_size content <= kMaxFileSize ->
  string_size (UnpackGzip content) <= kMaxFileSize.
Proof.
  intros Hint Hcontract Hsize.
  destruct (Z.eqb_spec (inflateInit2 (16 + MAX_WBITS)) Z_OK) as [Hok|Hno].
  2: { rewrite (UnpackGzip_unchanged content) by (left; exact Hno).
       exact Hsize. }
  destruct (UnpackGzip_call content) as [[res stream] written] eqn:Hcall.
  destruct (Z.eq_dec (avail_out stream) 0) as [Hfull|Hroom].
  { rewrite (UnpackGzip_unchanged content); [exact Hsize|].
    right; right. rewrite Hcall. exact Hfull. }
  destruct (Z.eq_dec res Z_OK) as [Hres|Hres];
    [|destruct (Z.eq_dec res Z_STREAM_END) as [Hend|Hend]].
  - destruct (UnpackGzip_success content res stream written) as [-> ?]; auto.
  - destruct (UnpackGzip_success content res stream written) as [-> ?]; auto.
  - rewrite (UnpackGzip_unchanged content); [exact Hsize|].
    right; left. unfold inflate_rejects. rewrite Hcall. split; assumption.
Qed.

(** C7: [ReadContent] hands back non-empty [data] as it is; for empty
    [data] it yields what the file at [filepath] holds when the file
    reports a size within [kMaxFileSize] and opens, and an empty buffer
    in every other case, a missing file included. *)
Theorem ReadContent_cases (fs : gmap string QFile) (data : bytes)
    (filepath : string) :
  (data <> [] -> ReadContent fs data filepath = data)
  /\ (data = [] ->
      forall f, fs !! filepath = Some f ->
        file_size f <= kMaxFileSize -> file_opens f = true ->
        ReadContent fs data filepath = file_data f)
  /\ (data = [] ->
      (forall f, fs !! filepath = Some f ->
         kMaxFileSize < file_size f \/ file_opens f = false) ->
      ReadContent fs data filepath = []).
Proof.
  unfold ReadContent, ReadFile, duplicate. repeat split.
  - intros Hne. destruct data; [done | reflexivity].
  - intros -> f Hf Hsize Hopen. cbn. rewrite Hf. cbn.
    rewrite Hopen. destruct (Z.leb_spec (file_size f) kMaxFileSize);
      [reflexivity | lia].
  - intros -> Hbad. cbn. destruct (fs !! filepath) as [f|] eqn:Hf.
    2: { cbn. rewrite andb_false_r. reflexivity. }
    cbn. destruct (Hbad f eq_refl) as [Hbig | Hclosed].
    + destruct (Z.leb_spec (file_size f) kMaxFileSize); [lia | reflexivity].
    + rewrite Hclosed, andb_false_r. reflexivity.
Qed.

End ContentLoaderClaims.

(** ** Decode initializer *)

Section DecodeInitializerFacts.
Context `{Limits} `{zlib.Api} `{Collaborators}.

Lemma ContentError_oversized (content : bytes) :
  kMaxFileSize < QByteArray_size content ->
  ContentError content = Some ParseFailed.
Proof.
  intros Hbig. unfold ContentError.
  destruct (Z.gtb_spec (QByteArray_size content) kMaxFileSize);
    [reflexivity | lia].
Qed.

Lemma ContentError_within (content : bytes) :
  QByteArray_size content <= kMaxFileSize ->
  ContentError content = None.
Proof.
  intros Hfits. unfold ContentError.
  destruct (Z.gtb_spec (QByteArray_size content) kMaxFileSize);
    [lia | reflexivity].
Qed.

(** A state that passes [CheckSharedState] has a non-zero frame rate, a
    positive frame count and a size with both sides positive. *)
Lemma CheckSharedState_inl (state state' : SharedState) :
  CheckSharedState state = inl state' ->
  state' = state
  /\ frameRate (SharedState_information state) <> 0
  /\ 0 < framesCount (SharedState_information state)
  /\ 0 < width (size (SharedState_information state))
  /\ 0 < height (size (SharedState_information state)).
Proof.
  unfold CheckSharedState, QSize_isEmpty.
  destruct (Z.eqb_spec (frameRate (SharedState_information state)) 0);
    [discriminate|].
  destruct (Z.leb_spec (framesCount (SharedState_information state)) 0);
    [discriminate|].
  destruct (Z.leb_spec (width (size (SharedState_information state))) 0);
    [discriminate|].
  destruct (Z.leb_spec (height (size (SharedState_information state))) 0);
    [discriminate|].
  cbn. intros [= <-]. auto.
Qed.

Lemma CheckSharedState_inr (state : SharedState) (error : Error) :
  CheckSharedState state = inr error -> error = NotSupported.
Proof.
  unfold CheckSharedState.
  destruct (_ || _); [intros [= <-]; reflexivity | discriminate].
Qed.

(** With the size assertion out of the way, [CreateFromContent] is one
    call into the decode library. *)
Lemma CreateFromContent_run (content : bytes) :
  kMaxFileSize_is_int ->
  output_contract ->
  QByteArray_size content <= kMaxFileSize ->
  CreateFromContent content
  = ([EvCreateFromContent content; EvLoadFromData (UnpackGzip content)],
     Some (loadFromData (UnpackGzip content))).
Proof.
  intros Hint Hcontract Hsize.
  pose proof (UnpackGzip_size content Hint Hcontract Hsize) as Hbound.
  unfold CreateFromContent, Assert.
  destruct (Z.leb_spec (string_size (UnpackGzip content)) kMaxFileSize);
    [reflexivity | lia].
Qed.

Lemma Init_run (content : bytes) (request : FrameRequest) :
  kMaxFileSize_is_int ->
  output_contract ->
  QByteArray_size content <= kMaxFileSize ->
  Init content request
  = ([EvCreateFromContent content; EvLoadFromData (UnpackGzip content)],
     Some match loadFromData (UnpackGzip content) with
          | Some animation =>
            CheckSharedState (SharedState_new animation request)
          | None => inr ParseFailed
          end).
Proof.
  intros Hint Hcontract Hsize. unfold Init.
  rewrite ContentError_within, CreateFromContent_run by assumption.
  destruct (loadFromData (UnpackGzip content)); reflexivity.
Qed.

Lemma Init_cached_run (content : bytes) (put : Put) (cached : bytes)
    (request : FrameRequest) :
  kMaxFileSize_is_int ->
  output_contract ->
  QByteArray_size content <= kMaxFileSize ->
  let cache := Cache_new cached request put in
  Init_cached content put cached request
  = if needs_prepare cache then
      ([EvCreateFromContent content; EvLoadFromData (UnpackGzip content)],
       Some match loadFromData (UnpackGzip content) with
            | Some animation =>
              CheckSharedState
                (SharedState_new_cached content (Some animation) cache request)
            | None => inr ParseFailed
            end)
    else
      ([], Some (CheckSharedState
                   (SharedState_new_cached content None cache request))).
Proof.
  intros Hint Hcontract Hsize cache. unfold Init_cached.
  rewrite ContentError_within by assumption. fold cache.
  destruct (needs_prepare cache); [|reflexivity].
  rewrite CreateFromContent_run by assumption.
  destruct (loadFromData (UnpackGzip content)); reflexivity.
Qed.

Lemma needs_prepare_true (cache : Cache) :
  needs_prepare cache = true <->
  Cache_framesCount cache = 0
  \/ Cache_framesReady cache < Cache_framesCount cache.
Proof.
  unfold needs_prepare. rewrite orb_true_iff, Z.eqb_eq, Z.ltb_lt. tauto.
Qed.

End DecodeInitializerFacts.

Section DecodeInitializerClaims.
Context `{Limits} `{zlib.Api} `{Collaborators}.

(** C1: content larger than [kMaxFileSize] makes both [Init] overloads
    return [ParseFailed], and neither run makes any call into the decode
    library: no [CreateFromContent], no [loadFromData]. *)
Theorem Init_oversized (content : bytes) (request : FrameRequest)
    (put : Put) (cached : bytes) :
  kMaxFileSize < QByteArray_size content ->
  Init content request = ([], Some (inr ParseFailed))
  /\ Init_cached content put cached request = ([], Some (inr ParseFailed))
  /\ decode_not_invoked (Init content request)
  /\ decode_not_invoked (Init_cached content put cached request).
Proof.
  intros Hbig. unfold decode_not_invoked, Init, Init_cached.
  rewrite (ContentError_oversized content Hbig). done.
Qed.

(** C2: for content that passes the size check, the cache-aware [Init]
    calls the decode library exactly when the cache reports no frames or
    fewer ready frames than frames: a complete cache means no call, an
    empty or partial one means one [CreateFromContent] with its
    [loadFromData], and a needed decode that yields no handle ends in
    [ParseFailed]. *)
Theorem Init_cached_decodes_iff_needed (content : bytes) (put : Put)
    (cached : bytes) (request : FrameRequest) :
  kMaxFileSize_is_int ->
  output_contract ->
  QByteArray_size content <= kMaxFileSize ->
  let cache := Cache_new cached request put in
  let run := Init_cached content put cached request in
  (~ decode_not_invoked run <->
     Cache_framesCount cache = 0
     \/ Cache_framesReady cache < Cache_framesCount cache)
  /\ (Cache_framesReady cache = Cache_framesCount cache ->
      0 < Cache_framesCount cache ->
      elog run = [] /\ loads (elog run) = 0%nat)
  /\ (Cache_framesCount cache = 0
      \/ Cache_framesReady cache < Cache_framesCount cache ->
      elog run
      = [EvCreateFromContent content; EvLoadFromData (UnpackGzip content)]
      /\ loads (elog run) = 1%nat)
  /\ (Cache_framesCount cache = 0
      \/ Cache_framesReady cache < Cache_framesCount cache ->
      loadFromData (UnpackGzip content) = None ->
      evalue run = Some (inr ParseFailed)).
Proof.
  intros Hint Hcontract Hsize cache run.
  pose proof (Init_cached_run content put cached request
                Hint Hcontract Hsize) as Hrun.
  cbn zeta in Hrun. fold cache run in Hrun.
  pose proof (needs_prepare_true cache) as Hneeds.
  unfold decode_not_invoked.
  destruct (needs_prepare cache); rewrite Hrun; cbn [elog evalue fst snd].
  - assert (Hyes : Cache_framesCount cache = 0
                   \/ Cache_framesReady cache < Cache_framesCount cache)
      by (apply Hneeds; reflexivity).
    split; [|split; [|split]].
    + split; [intros _; exact Hyes | intros _; discriminate].
    + intros Heq Hpos. lia.
    + intros _. split; reflexivity.
    + intros _ ->. reflexivity.
  - assert (Hno : ~ (Cache_framesCount cache = 0
                     \/ Cache_framesReady cache < Cache_framesCount cache))
      by (intros Hc; apply Hneeds in Hc; discriminate).
    split; [|split; [|split]].
    + split; [intros Hc; destruct Hc; reflexivity | intros Hc; tauto].
    + intros _ _. split; reflexivity.
    + intros Hc. tauto.
    + intros Hc. tauto.
Qed.

(** C9: an input of at most [kMaxFileSize] bytes comes out of
    [UnpackGzip] with at most [kMaxFileSize] bytes, being either the
    input itself or an inflated result that left a byte of the scratch
    buffer unused; so [CreateFromContent] passes its size assertion and
    goes on to the decode library. *)
Theorem UnpackGzip_within_limit (content : bytes) :
  kMaxFileSize_is_int ->
  output_contract ->
  QByteArray_size content <= kMaxFileSize ->
  string_size (UnpackGzip content) <= kMaxFileSize
  /\ (UnpackGzip content = content
      \/ exists res stream,
           UnpackGzip_call content = (res, stream, UnpackGzip content)
           /\ 0 < avail_out stream)
  /\ evalue (CreateFromContent content)
     = Some (loadFromData (UnpackGzip content)).
Proof.
  intros Hint Hcontract Hsize. split; [|split].
  - apply UnpackGzip_size; assumption.
  - destruct (Z.eqb_spec (inflateInit2 (16 + MAX_WBITS)) Z_OK) as [Hok|Hno].
    2: { left. apply UnpackGzip_unchanged. left. exact Hno. }
    destruct (UnpackGzip_call content) as [[res stream] written] eqn:Hcall.
    destruct (Z.eq_dec (avail_out stream) 0) as [Hfull|Hroom].
    { left. apply UnpackGzip_unchanged. right; right.
      rewrite Hcall. exact Hfull. }
    assert (Hpos : 0 < avail_out stream).
    { pose proof (Hcontract
        (mk_stream (to_uInt (QByteArray_size content)) content
           (to_uInt (string_size (string_fill (kMaxFileSize + 1)))))
        Z_NO_FLUSH) as Hc.
      unfold UnpackGzip_call in Hcall. rewrite Hcall in Hc.
      cbn [avail_out] in Hc. unfold kMaxFileSize_is_int in Hint.
      rewrite string_fill_size, to_uInt_small in Hc by lia.
      destruct Hc as [Hc _]; lia. }
    destruct (Z.eq_dec res Z_OK) as [Hres|Hres];
      [|destruct (Z.eq_dec res Z_STREAM_END) as [Hend|Hend]].
    + right. exists res, stream.
      destruct (UnpackGzip_success content res stream written) as [-> _];
        auto.
    + right. exists res, stream.
      destruct (UnpackGzip_success content res stream written) as [-> _];
        auto.
    + left. apply UnpackGzip_unchanged. right; left.
      unfold inflate_rejects. rewrite Hcall. split; assumption.
  - rewrite CreateFromContent_run by assumption. reflexivity.
Qed.

(** C10: [ReadThumbnail] maps the outcome of [Init] with a default
    request: every failure (oversized content, content the decode
    library cannot parse, metadata that fails validation) gives the
    default-constructed [QImage], success gives the [original] image of
    the state's frame for paint; it raises in neither case. *)
Theorem ReadThumbnail_cases (content : bytes) :
  kMaxFileSize_is_int ->
  output_contract ->
  (kMaxFileSize < QByteArray_size content ->
   ReadThumbnail content = ([], Some QImage_new))
  /\ (QByteArray_size content <= kMaxFileSize ->
      evalue (ReadThumbnail content)
      = Some match loadFromData (UnpackGzip content) with
             | None => QImage_new
             | Some animation =>
               match CheckSharedState
                       (SharedState_new animation FrameRequest_new) with
               | inl state => SharedState_frameForPaint_original state
               | inr _ => QImage_new
               end
             end)
  /\ exists data,
       evalue (Init content FrameRequest_new) = Some data
       /\ evalue (ReadThumbnail content)
          = Some match data with
                 | inl state => SharedState_frameForPaint_original state
                 | inr _ => QImage_new
                 end.
Proof.
  intros Hint Hcontract. unfold ReadThumbnail.
  destruct (Z.le_gt_cases (QByteArray_size content) kMaxFileSize)
    as [Hfits|Hbig].
  - rewrite Init_run by assumption.
    repeat split.
    + lia.
    + intros _. destruct (loadFromData (UnpackGzip content)) as [animation|];
        [|reflexivity].
      destruct (CheckSharedState _); reflexivity.
    + eexists. split; [reflexivity|].
      destruct (loadFromData (UnpackGzip content)) as [animation|];
        [|reflexivity].
      destruct (CheckSharedState _); reflexivity.
  - unfold Init. rewrite ContentError_oversized by assumption.
    repeat split.
    + lia.
    + eexists. split; reflexivity.
Qed.

End DecodeInitializerClaims.

(** ** Controller *)

Section ControllerFacts.
Context `{Limits} `{zlib.Api} `{Collaborators}.

(** A state that [Init] hands out went through [CheckSharedState]. *)
Lemma Init_inl (content : bytes) (request : FrameRequest)
    (state' : SharedState) :
  evalue (Init content request) = Some (inl state') ->
  exists state, CheckSharedState state = inl state'.
Proof.
  unfold Init. destruct (ContentError content); [discriminate|].
  rewrite evalue_bind.
  destruct (evalue (CreateFromContent content)) as [[animation|]|];
    cbn; try discriminate.
  intros [= Heq]. eauto.
Qed.

Lemma Init_cached_inl (content : bytes) (put : Put) (cached : bytes)
    (request : FrameRequest) (state' : SharedState) :
  evalue (Init_cached content put cached request) = Some (inl state') ->
  exists state, CheckSharedState state = inl state'.
Proof.
  unfold Init_cached. destruct (ContentError content); [discriminate|].
  rewrite evalue_bind.
  destruct (evalue (if needs_prepare _ then _ else _)) as [animation|];
    cbn; [|discriminate].
  destruct (negb _ || _); cbn; [|discriminate].
  intros [= Heq]. eauto.
Qed.


Lemma controller_invariant_new : controller_invariant Animation_new.
Proof. split; cbn; [discriminate | done]. Qed.

Lemma controller_invariant_initDone (a : Animation) (data : InitData)
    (now : Z) :
  controller_invariant a -> controller_invariant (initDone a data now).
Proof.
  intros [Hstate Htime]. destruct data as [state|error]; split; cbn; eauto.
Qed.

Lemma controller_invariant_render (a a' : Animation) (now : Z) :
  controller_invariant a ->
  checkNextFrameRender a now = Some a' ->
  controller_invariant a'.
Proof.
  intros [Hstate Htime]. unfold checkNextFrameRender.
  destruct (Z.eqb_spec (_nextFrameTime a) kTimeUnknown); [discriminate|].
  destruct (now <? _nextFrameTime a).
  - destruct (negb _); intros [= <-]; split; cbn; auto.
  - unfold markFrameDisplayed. cbn.
    destruct (_renderer a) eqn:Hrenderer; [|discriminate]. cbn.
    destruct (_state a) as [state|]; [|discriminate].
    destruct (SharedState_markFrameDisplayed state now) as [position state'].
    cbn. intros [= <-]. split; cbn; eauto.
Qed.

(** [checkStep] needs no more than its two levels, and keeps the
    invariant. *)
Lemma checkStep_fuel_enough (fuel : nat) (a : Animation) (now : Z) :
  checkStep_fuel (S (S fuel)) a now = Some (checkStep a now).
Proof.
  unfold checkStep. cbn [checkStep_fuel].
  destruct (negb (_nextFrameTime a =? kTimeUnknown)); [reflexivity|].
  destruct (negb (_renderer a)); [reflexivity|].
  destruct (_state a) as [state|]; [|reflexivity].
  cbn [_nextFrameTime set_nextFrameTime].
  destruct (negb (SharedState_nextFrameDisplayTime state =? kTimeUnknown));
    reflexivity.
Qed.

Lemma controller_invariant_checkStep (a a' : Animation) (now : Z) :
  controller_invariant a ->
  checkStep a now = Some a' ->
  controller_invariant a'.
Proof.
  intros Hinv. unfold checkStep. cbn [checkStep_fuel].
  destruct (Z.eqb_spec (_nextFrameTime a) kTimeUnknown) as [Hunknown|];
    cbn [negb mjoin option_join].
  2: { apply controller_invariant_render. exact Hinv. }
  destruct (_renderer a) eqn:Hrenderer; cbn [negb]; [|discriminate].
  destruct (_state a) as [state|] eqn:Hstate; [|discriminate].
  cbn [_nextFrameTime set_nextFrameTime].
  assert (Hset : forall t, controller_invariant (set_nextFrameTime a t)).
  { intros t. split; cbn; [|auto]. intros _. rewrite Hstate. eauto. }
  destruct (Z.eqb_spec (SharedState_nextFrameDisplayTime state) kTimeUnknown);
    cbn [negb].
  - intros [= <-]. apply Hset.
  - apply controller_invariant_render, Hset.
Qed.

Lemma controller_invariant_timer_fired (a a' : Animation) (now : Z) :
  controller_invariant a ->
  timer_fired a now = Some a' ->
  controller_invariant a'.
Proof.
  intros Hinv. unfold timer_fired.
  destruct (negb _); [intros [= <-]; exact Hinv|].
  apply controller_invariant_render.
  destruct Hinv as [Hstate Htime]. split; cbn; auto.
Qed.

End ControllerFacts.

Section ControllerClaims.
Context `{Limits} `{zlib.Api} `{Collaborators}.


End ControllerClaims.

Section RoundTrip.
Context `{Limits} `{zlib.Api}.

Lemma UnpackGzip_call_room (input : bytes) :
  kMaxFileSize_is_int ->
  UnpackGzip_call input
  = inflate (mk_stream (to_uInt (QByteArray_size input)) input
                       (kMaxFileSize + 1))
            Z_NO_FLUSH.
Proof.
  unfold kMaxFileSize_is_int, UnpackGzip_call. intros Hint.
  rewrite string_fill_size, (to_uInt_small (kMaxFileSize + 1)) by lia.
  reflexivity.
Qed.

(** C6, as the code has it: when zlib inflates the input to the end of
    its gzip stream and the bytes [x] it stores number at most
    [kMaxFileSize], [UnpackGzip] returns exactly [x]; when zlib rejects
    the input with an error code, [UnpackGzip] returns the input
    unchanged; when zlib stops with [Z_OK] and room to spare, the stream
    not yet ended, [UnpackGzip] returns the bytes stored so far. *)
Theorem UnpackGzip_round_trip (input x : bytes) :
  kMaxFileSize_is_int ->
  output_contract ->
  inflateInit2 (16 + MAX_WBITS) = Z_OK ->
  (inflates_to (kMaxFileSize + 1) input x ->
   string_size x <= kMaxFileSize ->
   UnpackGzip input = x)
  /\ (inflate_rejects input -> UnpackGzip input = input)
  /\ (forall stream,
        UnpackGzip_call input = (Z_OK, stream, x) ->
        avail_out stream <> 0 ->
        UnpackGzip input = x).
Proof.
  intros Hint Hcontract Hinit. split; [|split].
  - intros [stream Hcall] Hsize.
    rewrite <- UnpackGzip_call_room in Hcall by assumption.
    apply (UnpackGzip_success input Z_STREAM_END stream x); auto.
    pose proof (Hcontract
      (mk_stream (to_uInt (QByteArray_size input)) input (kMaxFileSize + 1))
      Z_NO_FLUSH) as Hc.
    rewrite <- UnpackGzip_call_room, Hcall in Hc by assumption.
    cbn [avail_out] in Hc. unfold kMaxFileSize_is_int in Hint.
    unfold string_size in Hsize. destruct Hc as [_ Hc]; lia.
  - intros Hrejects. apply UnpackGzip_unchanged. auto.
  - intros stream Hcall Hroom.
    apply (UnpackGzip_success input Z_OK stream x); auto.
Qed.

End RoundTrip.

(** ** Hand-over between threads *)

Section AsyncFacts.
Context `{Limits} `{zlib.Api} `{Collaborators}.

Lemma hand_over_construct (content : bytes) (request : FrameRequest) :
  hand_over_invariant (construct content request).
Proof. split; cbn; [reflexivity | lia]. Qed.

Lemma hand_over_construct_cached (put : Put) (content : bytes)
    (request : FrameRequest) :
  hand_over_invariant (construct_cached put content request).
Proof. split; cbn; [reflexivity | lia]. Qed.

Lemma worker_done_spec (s s' : System) (i : nat) (r : Eff InitData)
    (task : Task) :
  queue s !! i = Some task ->
  worker_done s i r = Some s' ->
  length (queue s') = length (queue s)
  /\ initDone_calls s' = initDone_calls s
  /\ dropped s' = dropped s
  /\ object s' = object s.
Proof.
  unfold worker_done. intros Hi Hdone.
  destruct (evalue r) as [data|]; [|discriminate].
  cbn in Hdone. injection Hdone as <-. cbn.
  rewrite length_insert. auto.
Qed.

(** A step changes the counters only by running the closure queued for
    the owning thread: [initDone] if the controller lives, a drop if
    not. *)
Lemma step_counts (s s' : System) (l : Label) :
  step s l = Some s' ->
  (length (queue s') = length (queue s)
   /\ initDone_calls s' = initDone_calls s
   /\ dropped s' = dropped s
   /\ (object s = None -> object s' = None))
  \/ (S (length (queue s')) = length (queue s)
      /\ is_Some (object s)
      /\ is_Some (object s')
      /\ initDone_calls s' = S (initDone_calls s)
      /\ dropped s' = dropped s)
  \/ (S (length (queue s')) = length (queue s)
      /\ object s = None
      /\ object s' = None
      /\ initDone_calls s' = initDone_calls s
      /\ dropped s' = S (dropped s)).
Proof.
  destruct l as [i|i cached|i now|now|now|]; cbn [step]; intros Hstep.
  - destruct (queue s !! i)
      as [[content request|?|content put cached request|?]|] eqn:Hi;
      try discriminate.
    + left. destruct (worker_done_spec _ _ _ _ _ Hi Hstep) as (?&?&?&->).
      auto.
    + left. destruct (worker_done_spec _ _ _ _ _ Hi Hstep) as (?&?&?&->).
      auto.
  - destruct (queue s !! i) as [[?|put content request|?|?]|] eqn:Hi;
      try discriminate.
    injection Hstep as <-. left. cbn. rewrite length_insert. auto.
  - destruct (queue s !! i) as [[?|?|?|data]|] eqn:Hi; try discriminate.
    assert (Hlen : S (length (delete i (queue s))) = length (queue s)).
    { rewrite length_delete by eauto.
      apply lookup_lt_Some in Hi. lia. }
    destruct (object s) as [a|] eqn:Hobject; injection Hstep as <-; cbn.
    + right; left. eauto 10.
    + right; right. auto.
  - left. destruct (object s) as [a|]; [|discriminate]. cbn in Hstep.
    destruct (_lifetime a); [|discriminate].
    destruct (checkStep _ _) as [a'|]; [|discriminate].
    injection Hstep as <-. cbn. repeat split. discriminate.
  - left. destruct (object s) as [a|]; [|discriminate]. cbn in Hstep.
    destruct (Timer_isActive _); [|discriminate].
    destruct (timer_fired _ _) as [a'|]; [|discriminate].
    injection Hstep as <-. cbn. repeat split. discriminate.
  - left. destruct (object s) as [a|]; [|discriminate].
    injection Hstep as <-. cbn. auto.
Qed.

Lemma hand_over_step (s s' : System) (l : Label) :
  hand_over_invariant s -> step s l = Some s' -> hand_over_invariant s'.
Proof.
  intros [Hone Hdead] Hstep. unfold hand_over_invariant.
  destruct (step_counts s s' l Hstep)
    as [(Hq & Hc & Hd & Ho)
       |[(Hq & Ho & Ho' & Hc & Hd)|(Hq & Ho & Ho' & Hc & Hd)]].
  - rewrite Hq, Hc, Hd. split; [exact Hone|]. auto.
  - rewrite Hc, Hd. split; [lia|].
    intros Hpos. apply Hdead in Hpos. destruct Ho as [a Ha]. congruence.
  - rewrite Hc, Hd. split; [lia | auto].
Qed.

Lemma hand_over_run (ls : list Label) (s s' : System) :
  hand_over_invariant s -> run s ls = Some s' -> hand_over_invariant s'.
Proof.
  revert s. induction ls as [|l ls IH]; intros s Hinv Hrun; cbn in Hrun.
  - injection Hrun as <-. exact Hinv.
  - destruct (step s l) as [s1|] eqn:Hstep; [|discriminate].
    cbn in Hrun. eapply IH; [|exact Hrun].
    eapply hand_over_step; eassumption.
Qed.

Lemma controller_invariant_step (s s' : System) (l : Label) :
  (forall a, object s = Some a -> controller_invariant a) ->
  step s l = Some s' ->
  forall a', object s' = Some a' -> controller_invariant a'.
Proof.
  intros Hinv Hstep a' Ha'.
  destruct l as [i|i cached|i now|now|now|]; cbn [step] in Hstep.
  - destruct (queue s !! i)
      as [[content request|?|content put cached request|?]|];
      try discriminate; unfold worker_done in Hstep;
      destruct (evalue _); try discriminate;
      injection Hstep as <-; cbn in Ha'; auto.
  - destruct (queue s !! i) as [[?|put content request|?|?]|];
      try discriminate.
    injection Hstep as <-. cbn in Ha'. auto.
  - destruct (queue s !! i) as [[?|?|?|data]|]; try discriminate.
    destruct (object s) as [a|]; injection Hstep as <-; cbn in Ha';
      [|discriminate].
    injection Ha' as <-. apply controller_invariant_initDone. auto.
  - destruct (object s) as [a|]; [|discriminate]. cbn in Hstep.
    destruct (_lifetime a); [|discriminate].
    destruct (checkStep a now) as [a1|] eqn:Hcheck; [|discriminate].
    injection Hstep as <-. cbn in Ha'. injection Ha' as <-.
    eapply controller_invariant_checkStep; [|exact Hcheck]. auto.
  - destruct (object s) as [a|]; [|discriminate]. cbn in Hstep.
    destruct (Timer_isActive _); [|discriminate].
    destruct (timer_fired a now) as [a1|] eqn:Hfired; [|discriminate].
    injection Hstep as <-. cbn in Ha'. injection Ha' as <-.
    eapply controller_invariant_timer_fired; [|exact Hfired]. auto.
  - destruct (object s) as [a|]; [|discriminate].
    injection Hstep as <-. cbn in Ha'. discriminate.
Qed.

(** Every controller a run can reach satisfies the invariant. *)
Lemma controller_invariant_run (ls : list Label) (start s : System)
    (a : Animation) :
  constructed start ->
  run start ls = Some s ->
  object s = Some a ->
  controller_invariant a.
Proof.
  intros Hstart.
  assert (Hnew : forall a0, object start = Some a0 -> controller_invariant a0).
  { destruct Hstart as [(content & request & ->)
                       |(put & content & request & ->)];
      cbn; intros a0 [= <-]; apply controller_invariant_new. }
  clear Hstart. revert start Hnew a.
  induction ls as [|l ls IH]; intros start Hnew a Hrun Ha; cbn in Hrun.
  - injection Hrun as <-. auto.
  - destruct (step start l) as [s1|] eqn:Hstep; [|discriminate].
    cbn in Hrun. eapply (IH s1); [|exact Hrun|exact Ha].
    eapply controller_invariant_step; eassumption.
Qed.

End AsyncFacts.

Section AsyncClaims.
Context `{Limits} `{zlib.Api} `{Collaborators}.

(** C8, as the code has it: along every run that starts at either
    constructor, [initDone] has executed at most once; once nothing is
    queued any more it has executed exactly once if the controller is
    still alive; after the destructor ran no step executes it or brings
    the controller back; and each execution is [parseDone] on a state
    or [parseFailed] on an error, never both. *)
Theorem initDone_at_most_once (start s : System) (ls : list Label) :
  constructed start ->
  run start ls = Some s ->
  (initDone_calls s <= 1)%nat
  /\ (queue s = [] -> is_Some (object s) -> initDone_calls s = 1%nat)
  /\ (forall l s', object s = None -> step s l = Some s' ->
        initDone_calls s' = initDone_calls s /\ object s' = None)
  /\ (forall a data now,
        match data with
        | inl state => initDone a data now = parseDone a state now
        | inr error => initDone a data now = parseFailed a error
        end).
Proof.
  intros Hstart Hrun.
  assert (Hinv : hand_over_invariant s).
  { apply (hand_over_run ls start); [|exact Hrun].
    destruct Hstart as [(content & request & ->)
                       |(put & content & request & ->)].
    - apply hand_over_construct.
    - apply hand_over_construct_cached. }
  destruct Hinv as [Hone Hdead].
  split; [lia|]. split; [|split].
  - intros Hempty [a Ha]. rewrite Hempty in Hone. cbn in Hone.
    destruct (dropped s) as [|d] eqn:Hd; [lia|].
    rewrite Hdead in Ha by lia. discriminate.
  - intros l s' Hgone Hstep.
    destruct (step_counts s s' l Hstep)
      as [(_ & Hc & _ & Ho)
         |[(_ & [a Ha] & _)|(_ & _ & Ho' & Hc & _)]].
    + auto.
    + congruence.
    + auto.
  - intros a [state|error] now; reflexivity.
Qed.

End AsyncClaims.

(** ** Further properties of the initializer *)

Section DecodeCalls.
Context `{Limits} `{zlib.Api} `{Collaborators}.

(** [CreateFromContent] stops at its assertion, or goes on to exactly
    one [loadFromData] on bytes within the limit. *)
Lemma CreateFromContent_log (content : bytes) :
  (elog (CreateFromContent content) = [EvCreateFromContent content]
   /\ evalue (CreateFromContent content) = None)
  \/ (elog (CreateFromContent content)
      = [EvCreateFromContent content; EvLoadFromData (UnpackGzip content)]
      /\ string_size (UnpackGzip content) <= kMaxFileSize
      /\ evalue (CreateFromContent content)
         = Some (loadFromData (UnpackGzip content))).
Proof.
  unfold CreateFromContent, Assert.
  destruct (Z.leb_spec (string_size (UnpackGzip content)) kMaxFileSize).
  - right. repeat split; try reflexivity. assumption.
  - left. split; reflexivity.
Qed.

Lemma bounded_decode_nil (content : bytes) : bounded_decode content [].
Proof.
  split; [vm_compute; lia|]. intros data Hin.
  apply elem_of_nil in Hin. done.
Qed.

Lemma bounded_decode_create (content : bytes) :
  QByteArray_size content <= kMaxFileSize ->
  bounded_decode content (elog (CreateFromContent content)).
Proof.
  intros Hfits.
  destruct (CreateFromContent_log content) as [[-> _]|(-> & Hbound & _)].
  - split; [vm_compute; lia|]. intros data Hin.
    apply list_elem_of_singleton in Hin. discriminate.
  - split; [vm_compute; lia|]. intros data Hin.
    apply elem_of_cons in Hin as [Hin|Hin]; [discriminate|].
    apply list_elem_of_singleton in Hin. injection Hin as ->.
    repeat split; [assumption.. | apply list_elem_of_here].
Qed.

Lemma Init_log (content : bytes) (request : FrameRequest) :
  elog (Init content request) = []
  \/ (QByteArray_size content <= kMaxFileSize
      /\ elog (Init content request) = elog (CreateFromContent content)).
Proof.
  unfold Init, ContentError.
  destruct (Z.gtb_spec (QByteArray_size content) kMaxFileSize);
    [left; reflexivity|].
  right. split; [lia|]. rewrite elog_bind.
  destruct (evalue (CreateFromContent content)) as [[animation|]|];
    cbn; apply app_nil_r.
Qed.

Lemma Init_cached_log (content : bytes) (put : Put) (cached : bytes)
    (request : FrameRequest) :
  elog (Init_cached content put cached request) = []
  \/ (QByteArray_size content <= kMaxFileSize
      /\ elog (Init_cached content put cached request)
         = elog (CreateFromContent content)).
Proof.
  unfold Init_cached, ContentError.
  destruct (Z.gtb_spec (QByteArray_size content) kMaxFileSize);
    [left; reflexivity|].
  destruct (needs_prepare _).
  - right. split; [lia|]. rewrite elog_bind.
    destruct (evalue (CreateFromContent content)) as [[animation|]|];
      cbn; apply app_nil_r.
  - left. reflexivity.
Qed.


Lemma Init_bounded (content : bytes) (request : FrameRequest) :
  bounded_decode content (elog (Init content request)).
Proof.
  destruct (Init_log content request) as [->|[Hfits ->]].
  - apply bounded_decode_nil.
  - apply bounded_decode_create. exact Hfits.
Qed.

Lemma Init_cached_bounded (content : bytes) (put : Put) (cached : bytes)
    (request : FrameRequest) :
  bounded_decode content (elog (Init_cached content put cached request)).
Proof.
  destruct (Init_cached_log content put cached request) as [->|[Hfits ->]].
  - apply bounded_decode_nil.
  - apply bounded_decode_create. exact Hfits.
Qed.


(** X2: when the cache needs frames prepared, the cache-aware [Init]
    makes the same calls into the decode library as the plain one, is
    stopped by the size assertion when the plain one is, and fails with
    [ParseFailed] exactly when the plain one does. *)
Theorem Init_overloads_agree (content : bytes) (put : Put) (cached : bytes)
    (request : FrameRequest) :
  needs_prepare (Cache_new cached request put) = true ->
  elog (Init_cached content put cached request) = elog (Init content request)
  /\ (evalue (Init_cached content put cached request) = None
      <-> evalue (Init content request) = None)
  /\ (evalue (Init_cached content put cached request)
      = Some (inr ParseFailed)
      <-> evalue (Init content request) = Some (inr ParseFailed)).
Proof.
  intros Hneeds. unfold Init_cached, Init. rewrite Hneeds.
  destruct (ContentError content); [done|].
  rewrite !elog_bind, !evalue_bind.
  destruct (evalue (CreateFromContent content)) as [[animation|]|]; cbn.
  - repeat split; try done.
    + intros [= Hcheck]. apply CheckSharedState_inr in Hcheck. discriminate.
    + intros [= Hcheck]. apply CheckSharedState_inr in Hcheck. discriminate.
  - done.
  - done.
Qed.

(** X3: what [ReadContent] takes from a file passes [ContentError]:
    when [readAll] yields as many bytes as [size] reported, content is
    rejected as too large only if it came as in-memory [data]; a file
    above [kMaxFileSize] is read as empty instead, and [FromContent]
    then constructs the controller on empty content. *)
Theorem file_content_within_limit (fs : gmap string QFile) (data : bytes)
    (filepath : string) (request : FrameRequest) :
  0 <= kMaxFileSize ->
  (forall f, fs !! filepath = Some f ->
     QByteArray_size (file_data f) = file_size f) ->
  (data = [] -> ContentError (ReadContent fs data filepath) = None)
  /\ (ContentError (ReadContent fs data filepath) = Some ParseFailed ->
      data <> [] /\ kMaxFileSize < QByteArray_size data)
  /\ (data = [] ->
      forall f, fs !! filepath = Some f -> kMaxFileSize < file_size f ->
      FromContent fs data filepath request = construct [] request).
Proof.
  intros Hmax Hhonest.
  assert (Hfile : data = [] ->
            QByteArray_size (ReadContent fs data filepath) <= kMaxFileSize).
  { intros ->. unfold ReadContent, ReadFile. cbn.
    destruct (fs !! filepath) as [f|] eqn:Hf; cbn.
    - destruct (Z.leb_spec (file_size f) kMaxFileSize); cbn.
      + destruct (file_opens f); cbn;
          [|unfold QByteArray_size; cbn; lia].
        rewrite (Hhonest f eq_refl). assumption.
      + unfold QByteArray_size. cbn. lia.
    - rewrite andb_false_r. unfold QByteArray_size. cbn. lia. }
  split; [|split].
  - intros Hempty. apply ContentError_within. auto.
  - intros Herror. destruct data as [|b data].
    + rewrite ContentError_within in Herror by auto. discriminate.
    + split; [discriminate|].
      unfold ContentError, ReadContent, duplicate in Herror. cbn in Herror.
      destruct (Z.gtb_spec (QByteArray_size (b :: data)) kMaxFileSize);
        [lia | discriminate].
  - intros -> f Hf Hbig. unfold FromContent, ReadContent, ReadFile. cbn.
    rewrite Hf. cbn.
    destruct (Z.leb_spec (file_size f) kMaxFileSize); [lia | reflexivity].
Qed.

End DecodeCalls.

(** ** Further properties of the controller *)

Section PacingFacts.
Context `{Limits} `{zlib.Api} `{Collaborators}.

Lemma displayed_snoc (positions : list Z) (position : Z) :
  displayed positions ++ [fire (DisplayFrameRequest position)]
  = displayed (positions ++ [position]).
Proof. unfold displayed. rewrite fmap_app. reflexivity. Qed.

Lemma pacing_new : pacing_invariant Animation_new.
Proof.
  unfold pacing_invariant, updates_shape. cbn.
  repeat split; try done. left. reflexivity.
Qed.

(** A controller that has fired nothing is not ready, knows no due time
    and has an idle timer. *)
Lemma pacing_fresh (a : Animation) :
  pacing_invariant a -> _updates a = [] ->
  _renderer a = false
  /\ _nextFrameTime a = kTimeUnknown
  /\ Timer_isActive (_timer a) = false.
Proof.
  intros (Hlife & Hstate & Htime & Htimer & Harmed & Hshape) Hnone.
  assert (Hidle : _renderer a = false).
  { unfold updates_shape in Hshape.
    destruct (_renderer a); [|reflexivity].
    destruct Hshape as (information & positions & Heq). congruence. }
  assert (Hunknown : _nextFrameTime a = kTimeUnknown).
  { destruct (Z.eq_dec (_nextFrameTime a) kTimeUnknown) as [|Hknown];
      [assumption|].
    apply Htime in Hknown. congruence. }
  repeat split; [assumption.. |].
  destruct (Timer_isActive (_timer a)); [|reflexivity].
  destruct (Htimer eq_refl). assumption.
Qed.

Lemma pacing_initDone (a : Animation) (data : InitData) (now : Z) :
  pacing_invariant a -> _updates a = [] ->
  pacing_invariant (initDone a data now)
  /\ _updates (initDone a data now) <> [].
Proof.
  intros Hinv Hnone.
  destruct (pacing_fresh a Hinv Hnone) as (Hidle & Hunknown & Hquiet).
  destruct Hinv as (Hlife & Hstate & Htime & Htimer & Harmed & Hshape).
  destruct data as [state|error]; cbn; rewrite Hnone;
    (split; [|discriminate]);
    unfold pacing_invariant, updates_shape; cbn; rewrite ?Hnone, ?Hidle.
  - split; [reflexivity|]. split; [eauto|]. split; [done|].
    split; [unfold Timer_isActive in *; congruence|].
    split; [discriminate|].
    exists (SharedState_information state), []. reflexivity.
  - split; [congruence|]. split; [discriminate|].
    split; [intros Hknown; apply Htime in Hknown; congruence|].
    split; [assumption|]. split; [auto|].
    right. exists error. reflexivity.
Qed.

(** Setting the due time of a ready controller that knew none. *)
Lemma pacing_set_nextFrameTime (a : Animation) (t : Z) :
  pacing_invariant a -> _renderer a = true ->
  _nextFrameTime a = kTimeUnknown ->
  pacing_invariant (set_nextFrameTime a t).
Proof.
  intros (Hlife & Hstate & Htime & Htimer & Harmed & Hshape) Hready Hunknown.
  unfold pacing_invariant, updates_shape in *. cbn.
  repeat split; auto.
  intros Hactive. destruct (Htimer Hactive). exact Hunknown.
Qed.

Lemma pacing_render (a a' : Animation) (now : Z) :
  pacing_invariant a ->
  checkNextFrameRender a now = Some a' ->
  pacing_invariant a' /\ _renderer a' = true.
Proof.
  intros (Hlife & Hstate & Htime & Htimer & Harmed & Hshape).
  unfold checkNextFrameRender.
  destruct (Z.eqb_spec (_nextFrameTime a) kTimeUnknown) as [|Hknown];
    [discriminate|].
  pose proof (Htime Hknown) as Hready.
  destruct (now <? _nextFrameTime a).
  - destruct (negb _); intros [= <-].
    + unfold pacing_invariant, updates_shape in *. cbn.
      repeat split; auto. congruence.
    + unfold pacing_invariant. auto 10.
  - unfold markFrameDisplayed. cbn. rewrite Hready. cbn.
    destruct (_state a) as [state|]; [|discriminate].
    destruct (SharedState_markFrameDisplayed state now) as [position state'].
    cbn. intros [= <-].
    unfold pacing_invariant, updates_shape in *. cbn.
    rewrite Hready in *.
    repeat split; eauto; try done.
    destruct Hshape as (information & positions & ->).
    exists information, (positions ++ [position]).
    rewrite <- displayed_snoc. reflexivity.
Qed.

(** On a ready controller [checkNextFrameRender] needs only a known
    due time. *)
Lemma render_succeeds (a : Animation) (now : Z) :
  pacing_invariant a ->
  _nextFrameTime a <> kTimeUnknown ->
  is_Some (checkNextFrameRender a now).
Proof.
  intros (Hlife & Hstate & Htime & Htimer & Harmed & Hshape) Hknown.
  pose proof (Htime Hknown) as Hready.
  destruct (Hstate Hready) as [state Hst].
  unfold checkNextFrameRender.
  destruct (Z.eqb_spec (_nextFrameTime a) kTimeUnknown); [done|].
  destruct (now <? _nextFrameTime a).
  - destruct (negb _); eauto.
  - unfold markFrameDisplayed. cbn. rewrite Hready, Hst. cbn.
    destruct (SharedState_markFrameDisplayed state now). cbn. eauto.
Qed.

(** [checkStep] with no due time known: it asks the state, and goes on
    to [checkNextFrameRender] when the state names one. *)
Lemma checkStep_unknown (a : Animation) (state : SharedState) (now : Z) :
  _nextFrameTime a = kTimeUnknown ->
  _renderer a = true ->
  _state a = Some state ->
  checkStep a now
  = if SharedState_nextFrameDisplayTime state =? kTimeUnknown
    then Some (set_nextFrameTime a (SharedState_nextFrameDisplayTime state))
    else checkNextFrameRender
           (set_nextFrameTime a (SharedState_nextFrameDisplayTime state)) now.
Proof.
  intros Hunknown Hready Hst. unfold checkStep. cbn [checkStep_fuel].
  rewrite Hunknown, Z.eqb_refl, Hready, Hst. cbn [negb].
  cbn [_nextFrameTime set_nextFrameTime].
  destruct (SharedState_nextFrameDisplayTime state =? kTimeUnknown);
    reflexivity.
Qed.

Lemma checkStep_known (a : Animation) (now : Z) :
  _nextFrameTime a <> kTimeUnknown ->
  checkStep a now = checkNextFrameRender a now.
Proof.
  intros Hknown. unfold checkStep. cbn [checkStep_fuel].
  destruct (Z.eqb_spec (_nextFrameTime a) kTimeUnknown); [done|].
  reflexivity.
Qed.

Lemma pacing_checkStep (a a' : Animation) (now : Z) :
  pacing_invariant a ->
  checkStep a now = Some a' ->
  pacing_invariant a' /\ _renderer a' = true.
Proof.
  intros Hinv.
  destruct (Z.eq_dec (_nextFrameTime a) kTimeUnknown) as [Hunknown|Hknown].
  2: { rewrite checkStep_known by assumption. apply pacing_render, Hinv. }
  destruct (_renderer a) eqn:Hready.
  2: { unfold checkStep. cbn [checkStep_fuel].
       rewrite Hunknown, Z.eqb_refl, Hready. discriminate. }
  destruct Hinv as (Hlife & Hstate & Hrest).
  destruct (Hstate Hready) as [state Hst].
  rewrite (checkStep_unknown a state) by assumption.
  assert (Hset : pacing_invariant
            (set_nextFrameTime a (SharedState_nextFrameDisplayTime state))).
  { apply pacing_set_nextFrameTime; [|assumption..].
    unfold pacing_invariant. auto. }
  destruct (SharedState_nextFrameDisplayTime state =? kTimeUnknown).
  - intros [= <-]. split; [exact Hset | exact Hready].
  - apply pacing_render, Hset.
Qed.

Lemma checkStep_succeeds (a : Animation) (now : Z) :
  pacing_invariant a -> _renderer a = true ->
  is_Some (checkStep a now).
Proof.
  intros Hinv Hready.
  destruct (Z.eq_dec (_nextFrameTime a) kTimeUnknown) as [Hunknown|Hknown].
  2: { rewrite checkStep_known by assumption.
       apply render_succeeds; assumption. }
  pose proof Hinv as (Hlife & Hstate & Hrest).
  destruct (Hstate Hready) as [state Hst].
  rewrite (checkStep_unknown a state) by assumption.
  destruct (Z.eqb_spec (SharedState_nextFrameDisplayTime state) kTimeUnknown)
    as [|Hknown]; [eauto|].
  apply render_succeeds; [|exact Hknown].
  apply pacing_set_nextFrameTime; assumption.
Qed.

(** The timer going off leaves a controller that still satisfies the
    invariant, with its due time known as before. *)
Lemma pacing_expire (a : Animation) :
  pacing_invariant a ->
  pacing_invariant (set_timer a (Timer_expire (_timer a))).
Proof.
  intros (Hlife & Hstate & Htime & Htimer & Harmed & Hshape).
  unfold pacing_invariant, updates_shape in *. cbn.
  repeat split; auto.
Qed.

Lemma pacing_timer_fired (a a' : Animation) (now : Z) :
  pacing_invariant a ->
  Timer_isActive (_timer a) = true ->
  timer_fired a now = Some a' ->
  pacing_invariant a' /\ _renderer a' = true.
Proof.
  intros Hinv Hactive. unfold timer_fired. rewrite Hactive. cbn [negb].
  apply pacing_render, pacing_expire, Hinv.
Qed.

Lemma timer_fired_succeeds (a : Animation) (now : Z) :
  pacing_invariant a ->
  Timer_isActive (_timer a) = true ->
  is_Some (timer_fired a now).
Proof.
  intros Hinv Hactive. unfold timer_fired. rewrite Hactive. cbn [negb].
  apply render_succeeds; [apply pacing_expire, Hinv|].
  destruct Hinv as (_ & _ & _ & Htimer & _). cbn. auto.
Qed.

(** A ready controller has fired something. *)
Lemma ready_has_fired (a : Animation) :
  pacing_invariant a -> _renderer a = true -> _updates a <> [].
Proof.
  intros (_ & _ & _ & _ & _ & Hshape) Hready.
  unfold updates_shape in Hshape. rewrite Hready in Hshape.
  destruct Hshape as (information & positions & ->). discriminate.
Qed.

Lemma system_invariant_construct (start : System) :
  constructed start -> system_invariant start.
Proof.
  intros [(content & request & ->)|(put & content & request & ->)].
  - split; [apply hand_over_construct|].
    cbn. intros a [= <-]. split; [apply pacing_new | done].
  - split; [apply hand_over_construct_cached|].
    cbn. intros a [= <-]. split; [apply pacing_new | done].
Qed.

Lemma system_invariant_step (s s' : System) (l : Label) :
  system_invariant s -> step s l = Some s' -> system_invariant s'.
Proof.
  intros [Hhand Hobject] Hstep.
  split; [eapply hand_over_step; eassumption|].
  intros a' Ha'.
  destruct l as [i|i cached|i now|now|now|]; cbn [step] in Hstep.
  - destruct (queue s !! i)
      as [[content request|?|content put cached request|?]|];
      try discriminate; unfold worker_done in Hstep;
      destruct (evalue _); try discriminate;
      injection Hstep as <-; cbn in *; auto.
  - destruct (queue s !! i) as [[?|put content request|?|?]|];
      try discriminate.
    injection Hstep as <-. cbn in *. auto.
  - destruct (queue s !! i) as [[?|?|?|data]|] eqn:Hi; try discriminate.
    destruct (object s) as [a|]; injection Hstep as <-; cbn in Ha';
      [|discriminate].
    injection Ha' as <-. cbn [initDone_calls].
    destruct (Hobject a eq_refl) as [Hpace Hcalls].
    assert (Hzero : initDone_calls s = 0%nat).
    { destruct Hhand as [Hone _]. apply lookup_lt_Some in Hi. lia. }
    destruct (pacing_initDone a data now Hpace (proj1 Hcalls Hzero))
      as [Hpace' Hfired].
    split; [exact Hpace'|]. split; [discriminate | done].
  - destruct (object s) as [a|]; [|discriminate]. cbn in Hstep.
    destruct (_lifetime a) eqn:Hlife; [|discriminate].
    destruct (checkStep a now) as [a1|] eqn:Hcheck; [|discriminate].
    injection Hstep as <-. cbn in Ha'. injection Ha' as <-.
    cbn [initDone_calls with_object].
    destruct (Hobject a eq_refl) as [Hpace Hcalls].
    destruct (pacing_checkStep a a1 now Hpace Hcheck) as [Hpace' Hready'].
    split; [exact Hpace'|].
    assert (Hready : _renderer a = true)
      by (destruct Hpace as [<- _]; exact Hlife).
    pose proof (ready_has_fired a Hpace Hready).
    pose proof (ready_has_fired a1 Hpace' Hready').
    split; intros Hx; [|done]. apply Hcalls in Hx. done.
  - destruct (object s) as [a|]; [|discriminate]. cbn in Hstep.
    destruct (Timer_isActive (_timer a)) eqn:Hactive; [|discriminate].
    destruct (timer_fired a now) as [a1|] eqn:Hfired; [|discriminate].
    injection Hstep as <-. cbn in Ha'. injection Ha' as <-.
    cbn [initDone_calls with_object].
    destruct (Hobject a eq_refl) as [Hpace Hcalls].
    destruct (pacing_timer_fired a a1 now Hpace Hactive Hfired)
      as [Hpace' Hready'].
    split; [exact Hpace'|].
    assert (Hready : _renderer a = true).
    { destruct Hpace as (_ & _ & Htime & Htimer & _). auto. }
    pose proof (ready_has_fired a Hpace Hready).
    pose proof (ready_has_fired a1 Hpace' Hready').
    split; intros Hx; [|done]. apply Hcalls in Hx. done.
  - destruct (object s) as [a|]; [|discriminate].
    injection Hstep as <-. cbn in Ha'. discriminate.
Qed.

Lemma system_invariant_run (ls : list Label) (start s : System) :
  system_invariant start -> run start ls = Some s -> system_invariant s.
Proof.
  revert start. induction ls as [|l ls IH]; intros start Hinv Hrun;
    cbn in Hrun.
  - injection Hrun as <-. exact Hinv.
  - destruct (step start l) as [s1|] eqn:Hstep; [|discriminate].
    cbn in Hrun. eapply IH; [|exact Hrun].
    eapply system_invariant_step; eassumption.
Qed.

(** What a run from a constructor makes true of its controller. *)
Lemma reachable_pacing (start s : System) (ls : list Label)
    (a : Animation) :
  constructed start -> run start ls = Some s -> object s = Some a ->
  pacing_invariant a /\ (initDone_calls s = 0%nat <-> _updates a = []).
Proof.
  intros Hstart Hrun Ha.
  destruct (system_invariant_run ls start s
              (system_invariant_construct start Hstart) Hrun) as [_ Hobject].
  auto.
Qed.

End PacingFacts.

Section PacingProperties.
Context `{Limits} `{zlib.Api} `{Collaborators}.

(** X4: the event stream of every controller a run can reach is empty
    until [initDone] has run; after that it is a single error, with the
    controller not ready, or the information followed by nothing but
    display requests, with the controller ready.  So an error is
    terminal and never mixed with frames. *)
Theorem updates_stream_shape (start s : System) (ls : list Label)
    (a : Animation) :
  constructed start ->
  run start ls = Some s ->
  object s = Some a ->
  (initDone_calls s = 0%nat <-> _updates a = [])
  /\ (ready a = false ->
      _updates a = [] \/ exists error, _updates a = [fire_error error])
  /\ (ready a = true ->
      exists information positions,
        _updates a
        = fire (InformationUpdate information) :: displayed positions).
Proof.
  intros Hstart Hrun Ha.
  destruct (reachable_pacing start s ls a Hstart Hrun Ha)
    as [(_ & _ & _ & _ & _ & Hshape) Hcalls].
  split; [exact Hcalls|].
  unfold updates_shape, ready in *.
  split; intros Hready; rewrite Hready in Hshape; exact Hshape.
Qed.

(** X5: until [parseDone] has made it ready, a reachable controller
    does no pacing: it has no [checkStep] subscription, knows no next
    frame time, its timer is idle and was never armed, and at no clock
    reading can a tick or a timer shot run on it. *)
Theorem idle_until_ready (start s : System) (ls : list Label)
    (a : Animation) :
  constructed start ->
  run start ls = Some s ->
  object s = Some a ->
  ready a = false ->
  _lifetime a = false
  /\ _nextFrameTime a = kTimeUnknown
  /\ Timer_isActive (_timer a) = false
  /\ timer_armed (_timer a) = []
  /\ (forall now, step s (Tick now) = None)
  /\ (forall now, step s (TimerShot now) = None).
Proof.
  intros Hstart Hrun Ha Hidle. unfold ready in Hidle.
  destruct (reachable_pacing start s ls a Hstart Hrun Ha)
    as [(Hlife & _ & Htime & Htimer & Harmed & _) _].
  assert (Hunknown : _nextFrameTime a = kTimeUnknown).
  { destruct (Z.eq_dec (_nextFrameTime a) kTimeUnknown) as [|Hknown];
      [assumption|].
    apply Htime in Hknown. congruence. }
  assert (Hquiet : Timer_isActive (_timer a) = false).
  { destruct (Timer_isActive (_timer a)); [|reflexivity].
    destruct (Htimer eq_refl). assumption. }
  split; [congruence|]. split; [assumption|]. split; [assumption|].
  split; [auto|].
  split; intros now; cbn [step]; rewrite Ha; cbn;
    rewrite ?Hquiet, ?Hlife, ?Hidle; reflexivity.
Qed.

(** X6: on a reachable controller no pacing call trips an [Expects]:
    with the subscription made, [checkStep] returns at every clock
    reading, and so does the timer's callback whenever a shot is
    pending, which happens only while the next frame time is known. *)
Theorem pacing_never_fails (start s : System) (ls : list Label)
    (a : Animation) (now : Z) :
  constructed start ->
  run start ls = Some s ->
  object s = Some a ->
  (_lifetime a = true -> is_Some (checkStep a now))
  /\ (Timer_isActive (_timer a) = true ->
      _nextFrameTime a <> kTimeUnknown /\ is_Some (timer_fired a now))
  /\ (_lifetime a = true -> is_Some (step s (Tick now)))
  /\ (Timer_isActive (_timer a) = true -> is_Some (step s (TimerShot now))).
Proof.
  intros Hstart Hrun Ha.
  destruct (reachable_pacing start s ls a Hstart Hrun Ha) as [Hpace _].
  assert (Hcheck : _lifetime a = true -> is_Some (checkStep a now)).
  { intros Hlife. apply checkStep_succeeds; [exact Hpace|].
    destruct Hpace as [<- _]. exact Hlife. }
  assert (Hshot : Timer_isActive (_timer a) = true ->
                  is_Some (timer_fired a now)).
  { intros Hactive. apply timer_fired_succeeds; assumption. }
  split; [exact Hcheck|]. split; [|split].
  - intros Hactive. split; [|auto].
    destruct Hpace as (_ & _ & _ & Htimer & _). auto.
  - intros Hlife. destruct (Hcheck Hlife) as [a' Ha'].
    cbn [step]. rewrite Ha. cbn. rewrite Hlife, Ha'. cbn. eauto.
  - intros Hactive. destruct (Hshot Hactive) as [a' Ha'].
    cbn [step]. rewrite Ha. cbn. rewrite Hactive, Ha'. cbn. eauto.
Qed.

(** X7: [checkStep] on a ready reachable controller that knows no next
    frame time asks the state for one.  If the state names none,
    nothing changes.  If it names a time still ahead, that time is kept
    and the timer, idle until then, is armed with the remaining delta.
    If it names a time already reached, the frame is marked displayed
    and [DisplayFrameRequest] fired within the same call, and the time
    is unknown again. *)
Theorem checkStep_same_tick (start s : System) (ls : list Label)
    (a : Animation) (now : Z) :
  constructed start ->
  run start ls = Some s ->
  object s = Some a ->
  ready a = true ->
  _nextFrameTime a = kTimeUnknown ->
  exists state,
    _state a = Some state
    /\ let due := SharedState_nextFrameDisplayTime state in
       (due = kTimeUnknown -> checkStep a now = Some a)
       /\ (due <> kTimeUnknown -> now < due ->
           checkStep a now
           = Some (mk_animation
                     (mk_timer true
                        (timer_armed (_timer a) ++ [to_int64 (due - now)]))
                     due (Some state) true (_updates a) true))
       /\ (due <> kTimeUnknown -> due <= now ->
           checkStep a now
           = Some (mk_animation
                     (mk_timer false (timer_armed (_timer a)))
                     kTimeUnknown
                     (Some (SharedState_markFrameDisplayed state now).2)
                     true
                     (_updates a
                      ++ [fire
                            (DisplayFrameRequest
                               (SharedState_markFrameDisplayed state now).1)])
                     true)).
Proof.
  intros Hstart Hrun Ha Hready Hunknown. unfold ready in Hready.
  destruct (reachable_pacing start s ls a Hstart Hrun Ha) as [Hpace _].
  destruct Hpace as (Hlife & Hstate & Htime & Htimer & Harmed & Hshape).
  destruct (Hstate Hready) as [state Hst].
  assert (Hquiet : Timer_isActive (_timer a) = false).
  { destruct (Timer_isActive (_timer a)); [|reflexivity].
    destruct (Htimer eq_refl). assumption. }
  exists state. split; [exact Hst|]. cbn zeta.
  rewrite (checkStep_unknown a state now Hunknown Hready Hst).
  split; [|split].
  - intros Hnone. rewrite Hnone, Z.eqb_refl, <- Hunknown.
    destruct a. reflexivity.
  - intros Hknown Hearly.
    destruct (Z.eqb_spec (SharedState_nextFrameDisplayTime state)
                kTimeUnknown); [done|].
    unfold checkNextFrameRender. cbn.
    destruct (Z.eqb_spec (SharedState_nextFrameDisplayTime state)
                kTimeUnknown); [done|].
    destruct (Z.ltb_spec now (SharedState_nextFrameDisplayTime state));
      [|lia].
    rewrite Hquiet. cbn.
    unfold set_timer, set_nextFrameTime, Timer_callOnce. cbn.
    rewrite Hst, Hlife, Hready. reflexivity.
  - intros Hknown Hdue.
    destruct (Z.eqb_spec (SharedState_nextFrameDisplayTime state)
                kTimeUnknown); [done|].
    unfold checkNextFrameRender. cbn.
    destruct (Z.eqb_spec (SharedState_nextFrameDisplayTime state)
                kTimeUnknown); [done|].
    destruct (Z.ltb_spec now (SharedState_nextFrameDisplayTime state));
      [lia|].
    unfold markFrameDisplayed. cbn. rewrite Hready, Hst. cbn.
    destruct (SharedState_markFrameDisplayed state now) as [position state'].
    cbn. unfold updates_fire, set_state. cbn.
    rewrite Hlife, Hready. reflexivity.
Qed.

(** X10: the destructor of a reachable controller passes its [Assert],
    and it removes a state from the renderer pool exactly when
    [parseDone] gave one to the pool, which is when the stream starts
    with the information; the state removed is the one [_state]
    observes. *)
Theorem destructor_removes_appended (start s : System) (ls : list Label)
    (a : Animation) :
  constructed start ->
  run start ls = Some s ->
  object s = Some a ->
  exists removed,
    Animation_destroy a = Some removed
    /\ (is_Some removed <-> ready a = true)
    /\ (is_Some removed <->
        exists information,
          head (_updates a) = Some (fire (InformationUpdate information)))
    /\ (is_Some removed -> removed = _state a).
Proof.
  intros Hstart Hrun Ha.
  destruct (reachable_pacing start s ls a Hstart Hrun Ha) as [Hpace _].
  destruct Hpace as (Hlife & Hstate & Htime & Htimer & Harmed & Hshape).
  unfold Animation_destroy, ready, updates_shape in *.
  destruct (_renderer a).
  - destruct (Hstate eq_refl) as [state Hst]. rewrite Hst.
    destruct Hshape as (information & positions & Hfired).
    exists (Some state). split; [reflexivity|].
    split; [split; eauto|]. split; [|reflexivity].
    split; [|eauto]. intros _. exists information.
    rewrite Hfired. reflexivity.
  - exists None. split; [reflexivity|].
    split; [split; [intros [? [=]] | discriminate]|].
    split; [|intros [? [=]]].
    split; [intros [? [=]]|].
    intros [information Hhead].
    destruct Hshape as [Hnone|[error Herror]].
    + rewrite Hnone in Hhead. discriminate.
    + rewrite Herror in Hhead. discriminate.
Qed.

(** [render_call] names every call that a step makes: a tick either
    makes one, on the controller as [checkStep] finds it or as
    [checkNextFrameAvailability] leaves it, or finds no frame due and
    makes none; a timer shot makes one, from the callback. *)
Lemma render_call_tick (s s' : System) (now : Z) :
  step s (Tick now) = Some s' ->
  (exists a a',
     render_call s a
     /\ checkNextFrameRender a now = Some a'
     /\ s' = with_object s (Some a'))
  \/ (exists a state,
        object s = Some a
        /\ _nextFrameTime a = kTimeUnknown
        /\ _state a = Some state
        /\ SharedState_nextFrameDisplayTime state = kTimeUnknown
        /\ s' = with_object s (Some (set_nextFrameTime a kTimeUnknown))).
Proof.
  cbn [step]. destruct (object s) as [a|] eqn:Ha; [|discriminate]. cbn.
  destruct (_lifetime a) eqn:Hlife; [|discriminate].
  unfold checkStep. cbn [checkStep_fuel].
  destruct (Z.eqb_spec (_nextFrameTime a) kTimeUnknown) as [Hunknown|Hknown];
    cbn [negb].
  - destruct (_renderer a); cbn [negb]; [|discriminate].
    destruct (_state a) as [state|] eqn:Hstate; [|discriminate].
    cbn [_nextFrameTime set_nextFrameTime].
    destruct (Z.eqb_spec (SharedState_nextFrameDisplayTime state)
                kTimeUnknown) as [Hnone|Hdue]; cbn [negb mjoin].
    + intros Hstep. right. exists a, state.
      cbn in Hstep. injection Hstep as <-. rewrite Hnone. auto.
    + cbn. intros Hstep. left.
      destruct (checkNextFrameRender _ now) as [a'|] eqn:Hcall;
        [|discriminate].
      exists (set_nextFrameTime a (SharedState_nextFrameDisplayTime state)),
        a'.
      cbn in Hstep. injection Hstep as <-.
      split; [|auto]. eapply call_availability; eauto.
  - cbn. intros Hstep. left.
    destruct (checkNextFrameRender a now) as [a'|] eqn:Hcall;
      [|discriminate].
    exists a, a'. cbn in Hstep. injection Hstep as <-.
    split; [|auto]. apply call_checkStep; auto.
Qed.

Lemma render_call_timer (s s' : System) (now : Z) :
  step s (TimerShot now) = Some s' ->
  exists a a',
    render_call s a
    /\ checkNextFrameRender a now = Some a'
    /\ s' = with_object s (Some a').
Proof.
  cbn [step]. destruct (object s) as [a|] eqn:Ha; [|discriminate]. cbn.
  destruct (Timer_isActive (_timer a)) eqn:Hactive; [|discriminate].
  unfold timer_fired. rewrite Hactive. cbn [negb].
  destruct (checkNextFrameRender _ now) as [a'|] eqn:Hcall; [|discriminate].
  cbn. intros Hstep. injection Hstep as <-.
  exists (set_timer a (Timer_expire (_timer a))), a'.
  split; [|auto]. apply call_timer; auto.
Qed.


End PacingProperties.

(** ** Further properties of the hand-over *)

Section DecodeOnce.
Context `{Limits} `{zlib.Api} `{Collaborators}.

Lemma delete_insert_same {A} (l : list A) (i : nat) (x : A) :
  delete i (<[i := x]> l) = delete i l.
Proof.
  revert i. induction l as [|y l IH]; intros [|i]; cbn; try reflexivity.
  f_equal. apply IH.
Qed.

(** A queue of at most one closure, seen from the closure at [i]. *)
Lemma queue_single (q : list Task) (i : nat) (t : Task) :
  (length q <= 1)%nat -> q !! i = Some t -> i = 0%nat /\ q = [t].
Proof.
  intros Hlen Hi. destruct q as [|t0 [|t1 q]]; cbn in Hlen; [done| |lia].
  destruct i as [|i]; cbn in Hi; [|done].
  injection Hi as ->. auto.
Qed.

Lemma decode_invariant_construct (start : System) :
  constructed start -> decode_invariant start.
Proof.
  intros [(content & request & ->)|(put & content & request & ->)];
    (split; [cbn; lia|]);
    (split; [exists content; apply bounded_decode_nil | reflexivity]).
Qed.

Lemma decode_invariant_worker (s s' : System) (i : nat) (t : Task)
    (content : bytes) (r : Eff InitData) :
  decode_invariant s ->
  queue s !! i = Some t -> awaits_decode t = true ->
  bounded_decode content (elog r) ->
  worker_done s i r = Some s' ->
  decode_invariant s'.
Proof.
  intros (Hlen & Hbound & Hawait) Hi Ht Hr Hdone.
  destruct (queue_single _ _ _ Hlen Hi) as [-> Hq].
  assert (Hlog : decode_log s = []).
  { apply (Hawait t); [|exact Ht]. rewrite Hq. apply list_elem_of_here. }
  unfold worker_done in Hdone.
  destruct (evalue r) as [data|]; [|discriminate].
  cbn in Hdone. injection Hdone as <-.
  unfold decode_invariant. cbn. rewrite Hq, Hlog. cbn.
  split; [lia|]. split; [exists content; exact Hr|].
  intros t' Hin. apply list_elem_of_singleton in Hin as ->. discriminate.
Qed.

Lemma decode_invariant_step (s s' : System) (l : Label) :
  decode_invariant s -> step s l = Some s' -> decode_invariant s'.
Proof.
  intros Hinv Hstep.
  destruct l as [i|i cached|i now|now|now|]; cbn [step] in Hstep.
  - destruct (queue s !! i)
      as [[content request|?|content put cached request|?]|] eqn:Hi;
      try discriminate.
    + eapply (decode_invariant_worker s s' i _ content);
        [exact Hinv | exact Hi | reflexivity | | exact Hstep].
      apply Init_bounded.
    + eapply (decode_invariant_worker s s' i _ content);
        [exact Hinv | exact Hi | reflexivity | | exact Hstep].
      apply Init_cached_bounded.
  - destruct (queue s !! i) as [[?|put content request|?|?]|] eqn:Hi;
      try discriminate.
    injection Hstep as <-. destruct Hinv as (Hlen & Hbound & Hawait).
    destruct (queue_single _ _ _ Hlen Hi) as [-> Hq].
    assert (Hlog : decode_log s = []).
    { apply (Hawait (GetCached put content request)); [|reflexivity].
      rewrite Hq. apply list_elem_of_here. }
    unfold decode_invariant. cbn. rewrite Hq, Hlog. cbn.
    split; [lia|]. split; [exists content; apply bounded_decode_nil|].
    reflexivity.
  - destruct (queue s !! i) as [[?|?|?|data]|] eqn:Hi; try discriminate.
    destruct Hinv as (Hlen & Hbound & Hawait).
    destruct (queue_single _ _ _ Hlen Hi) as [-> Hq].
    destruct (object s) as [a|]; injection Hstep as <-;
      unfold decode_invariant; cbn; rewrite Hq; cbn;
      (split; [lia|]); (split; [exact Hbound|]);
      intros t Hin; apply elem_of_nil in Hin; done.
  - destruct (object s) as [a|]; [|discriminate]. cbn in Hstep.
    destruct (_lifetime a); [|discriminate].
    destruct (checkStep a now); [|discriminate].
    injection Hstep as <-. exact Hinv.
  - destruct (object s) as [a|]; [|discriminate]. cbn in Hstep.
    destruct (Timer_isActive _); [|discriminate].
    destruct (timer_fired a now); [|discriminate].
    injection Hstep as <-. exact Hinv.
  - destruct (object s) as [a|]; [|discriminate].
    injection Hstep as <-. exact Hinv.
Qed.

Lemma decode_invariant_run (ls : list Label) (start s : System) :
  decode_invariant start -> run start ls = Some s -> decode_invariant s.
Proof.
  revert start. induction ls as [|l ls IH]; intros start Hinv Hrun;
    cbn in Hrun.
  - injection Hrun as <-. exact Hinv.
  - destruct (step start l) as [s1|] eqn:Hstep; [|discriminate].
    cbn in Hrun. eapply IH; [|exact Hrun].
    eapply decode_invariant_step; eassumption.
Qed.

(** X8: a controller decodes at most once in its life.  Along every
    run from a constructor the decode log holds at most one
    [loadFromData], on at most [kMaxFileSize] bytes, and it is empty for
    as long as a closure that has not been through [Init] is queued;
    no step but a worker's adds to it. *)
Theorem controller_decodes_at_most_once (start s : System)
    (ls : list Label) :
  constructed start ->
  run start ls = Some s ->
  (loads (decode_log s) <= 1)%nat
  /\ (forall data, EvLoadFromData data ∈ decode_log s ->
        string_size data <= kMaxFileSize)
  /\ (forall t, t ∈ queue s -> awaits_decode t = true -> decode_log s = [])
  /\ (forall l s', step s l = Some s' ->
        (forall i, l <> Worker i) -> decode_log s' = decode_log s).
Proof.
  intros Hstart Hrun.
  destruct (decode_invariant_run ls start s
              (decode_invariant_construct start Hstart) Hrun)
    as (_ & [content [Hloads Hdata]] & Hawait).
  split; [exact Hloads|]. split; [|split; [exact Hawait|]].
  - intros data Hin. destruct (Hdata data Hin) as (_ & Hbound & _).
    exact Hbound.
  - intros l s' Hstep Hnot.
    destruct l as [i|i cached|i now|now|now|]; cbn [step] in Hstep.
    + destruct (Hnot i eq_refl).
    + destruct (queue s !! i) as [[?|?|?|?]|]; try discriminate.
      injection Hstep as <-. reflexivity.
    + destruct (queue s !! i) as [[?|?|?|?]|]; try discriminate.
      destruct (object s); injection Hstep as <-; reflexivity.
    + destruct (object s) as [a|]; [|discriminate]. cbn in Hstep.
      destruct (_lifetime a); [|discriminate].
      destruct (checkStep a now); [|discriminate].
      injection Hstep as <-. reflexivity.
    + destruct (object s) as [a|]; [|discriminate]. cbn in Hstep.
      destruct (Timer_isActive _); [|discriminate].
      destruct (timer_fired a now); [|discriminate].
      injection Hstep as <-. reflexivity.
    + destruct (object s) as [a|]; [|discriminate].
      injection Hstep as <-. reflexivity.
Qed.

(** X9: destroying the controller does not call off the decode.  The
    destructor commutes with a worker's step, and when the controller
    dies first the worker still runs [Init], decode-library calls
    included; only the dispatch of the result is dropped, without
    running [initDone]. *)
Theorem destroy_keeps_decode (s : System) (i : nat) (now : Z) :
  run s [Destroy; Worker i] = run s [Worker i; Destroy]
  /\ forall content request data a,
       object s = Some a ->
       queue s !! i = Some (AsyncInit content request) ->
       evalue (Init content request) = Some data ->
       run s [Destroy; Worker i; Dispatch i now]
       = Some (mk_system None (delete i (queue s)) (initDone_calls s)
                 (S (dropped s))
                 (decode_log s ++ elog (Init content request))).
Proof.
  split.
  - cbn [run step]. destruct (object s) as [a|] eqn:Ha; cbn.
    + destruct (queue s !! i)
        as [[content request|?|content put cached request|?]|];
        try reflexivity; unfold worker_done; cbn;
        destruct (evalue _); cbn; try reflexivity; rewrite Ha; reflexivity.
    + destruct (queue s !! i)
        as [[content request|?|content put cached request|?]|];
        try reflexivity; unfold worker_done; cbn;
        destruct (evalue _); cbn; try reflexivity; rewrite Ha; reflexivity.
  - intros content request data a Ha Hi Hdata.
    cbn [run step]. rewrite Ha. cbn. rewrite Hi.
    unfold worker_done. cbn. rewrite Hdata. cbn.
    rewrite list_lookup_insert_eq by (eapply lookup_lt_Some; exact Hi).
    rewrite delete_insert_same. reflexivity.
Qed.

End DecodeOnce.

Section Delivery.
Context `{Limits} `{zlib.Api} `{Collaborators}.

(** X13: what [Init] returns is what the stream delivers.  Once the
    worker and the dispatch have run on a live controller, with the
    cached bytes delivered first for the cache-aware constructor, the
    controller is [initDone] of [Init]'s result: it has fired exactly
    one event, the information of the state as [Init] returned it or
    the error, and it is ready exactly in the first case.  Content above
    [kMaxFileSize] therefore ends as the single event [ParseFailed],
    with no call into the decode library. *)
Theorem init_outcome_delivered (content : bytes) (request : FrameRequest)
    (put : Put) (cached : bytes) (data : InitData) (now : Z) :
  (evalue (Init content request) = Some data ->
   run (construct content request) [Worker 0%nat; Dispatch 0%nat now]
   = Some (mk_system (Some (initDone Animation_new data now)) [] 1 0
             (elog (Init content request))))
  /\ (evalue (Init_cached content put cached request) = Some data ->
      run (construct_cached put content request)
          [Deliver 0%nat cached; Worker 0%nat; Dispatch 0%nat now]
      = Some (mk_system (Some (initDone Animation_new data now)) [] 1 0
                (elog (Init_cached content put cached request))))
  /\ _updates (initDone Animation_new data now)
     = [match data with
        | inl state => fire (InformationUpdate (SharedState_information state))
        | inr error => fire_error error
        end]
  /\ (ready (initDone Animation_new data now) = true
      <-> exists state, data = inl state)
  /\ (kMaxFileSize < QByteArray_size content ->
      run (construct content request) [Worker 0%nat; Dispatch 0%nat now]
      = Some (mk_system (Some (parseFailed Animation_new ParseFailed))
                [] 1 0 [])).
Proof.
  split; [|split; [|split; [|split]]].
  - intros Hdata. cbn [run step construct queue lookup list_lookup].
    cbn. unfold worker_done. rewrite Hdata. cbn. reflexivity.
  - intros Hdata. cbn. unfold worker_done. rewrite Hdata. cbn. reflexivity.
  - destruct data; reflexivity.
  - destruct data as [state|error]; cbn; split; eauto; try discriminate.
    intros [state [=]].
  - intros Hbig. cbn. unfold worker_done, Init.
    rewrite (ContentError_oversized content Hbig). cbn. reflexivity.
Qed.

End Delivery.

(** ** Painting *)

Section PaintingProperties.
Context `{Limits} `{zlib.Api} `{Collaborators} `{!Painting}.

(** X11: [frame] tells the renderer pool of a request exactly when it
    differs from the one stored in the frame, and then stores it: asked
    again for the same request it makes no call to the pool, changes
    nothing and prepares the image from what exists.  It never touches
    the timer, the next frame time or the event stream. *)
Theorem frame_notifies_once (a a' : Animation) (request : FrameRequest)
    (image : QImage) (calls : list RendererCall) :
  request_field_laws ->
  frame a request = Some (image, a', calls) ->
  (exists state state',
     _state a = Some state /\ _state a' = Some state'
     /\ (calls = []
         <-> FrameRequest_eqb (Frame_request state) request = true)
     /\ (calls <> [] -> calls = [updateFrameRequest])
     /\ frame a' request
        = Some (PrepareFrameByRequest state' true, a', []))
  /\ _timer a' = _timer a
  /\ _nextFrameTime a' = _nextFrameTime a
  /\ _updates a' = _updates a
  /\ ready a' = ready a.
Proof.
  intros [Hrefl Hfield]. unfold frame, ready.
  destruct (_renderer a) eqn:Hready; cbn [negb]; [|discriminate].
  destruct (_state a) as [state|] eqn:Hst; [|discriminate].
  destruct (FrameRequest_eqb (Frame_request state) request) eqn:Hsame;
    cbn [negb]; intros [= <- <- <-].
  - split; [|auto]. exists state, state. rewrite Hready, Hst, Hsame. cbn.
    repeat split; try done.
  - split; [|cbn; auto]. exists state, (Frame_set_request state request).
    cbn. rewrite Hready, Hfield, Hrefl. cbn.
    repeat split; try done. congruence.
Qed.

(** X12: on a reachable controller [ready] is exactly the precondition
    of the public calls that use the state: [frame],
    [markFrameDisplayed] and [markFrameShown] pass their [Expects] and
    find the state pointer set if and only if [ready] holds. *)
Theorem ready_is_the_precondition (start s : System) (ls : list Label)
    (a : Animation) (request : FrameRequest) (now : Z) :
  constructed start ->
  run start ls = Some s ->
  object s = Some a ->
  (is_Some (frame a request) <-> ready a = true)
  /\ (is_Some (markFrameDisplayed a now) <-> ready a = true)
  /\ (is_Some (markFrameShown a) <-> ready a = true).
Proof.
  intros Hstart Hrun Ha.
  destruct (reachable_pacing start s ls a Hstart Hrun Ha)
    as [(_ & Hstate & _) _].
  unfold frame, markFrameDisplayed, markFrameShown, ready.
  destruct (_renderer a); cbn [negb].
  - destruct (Hstate eq_refl) as [state ->].
    split; [|split]; (split; [reflexivity|intros _]).
    + destruct (negb _); eauto.
    + destruct (SharedState_markFrameDisplayed state now). eauto.
    + destruct (SharedState_markFrameShown state). eauto.
  - split; [|split]; (split; [intros [? [=]] | discriminate]).
Qed.

End PaintingProperties.

(** * The claims on the sample collaborators *)

Import sample.

Lemma sample_kMaxFileSize_is_int : kMaxFileSize_is_int.
Proof. unfold kMaxFileSize_is_int. cbn. lia. Qed.

Lemma gzip_output_contract : output_contract.
Proof.
  intros s flush Hroom. cbn [inflate gzip]. unfold gzip_inflate.
  destruct (member _) as [status out]. cbn [avail_out].
  rewrite length_take. lia.
Qed.

(** The sample inflate reports the end of the stream only for a member
    that is complete. *)
Lemma gzip_inflate_end (s : z_stream) (flush : Z) :
  (member (take (Z.to_nat (avail_in s)) (next_in s))).1 <> Finished ->
  (gzip_inflate s flush).1.1 <> Z_STREAM_END.
Proof.
  unfold gzip_inflate. destruct (member _) as [status out]. cbn [fst].
  intros Hstatus.
  destruct (_ <? _)%nat; [discriminate|].
  destruct status; [done | | discriminate].
  destruct (take _ _); discriminate.
Qed.

Lemma not_inflates_to (input : bytes) :
  (member (take (Z.to_nat (to_uInt (QByteArray_size input))) input)).1
  <> Finished ->
  forall room x, ~ inflates_to room input x.
Proof.
  intros Hstatus room x [stream Hcall].
  apply (gzip_inflate_end
           (mk_stream (to_uInt (QByteArray_size input)) input room) Z_NO_FLUSH);
    [exact Hstatus|].
  cbn [inflate gzip] in Hcall. rewrite Hcall. reflexivity.
Qed.

(** An instance of C1: 65 bytes against the ceiling of 64. *)
Lemma Init_oversized_witness :
  kMaxFileSize < QByteArray_size (replicate 65 "a"%byte)
  /\ Init (replicate 65 "a"%byte) FrameRequest_new
     = ([], Some (inr ParseFailed))
  /\ Init_cached (replicate 65 "a"%byte) discard [] FrameRequest_new
     = ([], Some (inr ParseFailed)).
Proof.
  assert (Hbig : kMaxFileSize < QByteArray_size (replicate 65 "a"%byte))
    by (vm_compute; reflexivity).
  split; [exact Hbig|].
  destruct (Init_oversized (replicate 65 "a"%byte) FrameRequest_new
              discard [] Hbig) as (Hinit & Hcached & _).
  split; [exact Hinit | exact Hcached].
Defined.

(** An instance of C2: a complete cache (10 of 10 frames) and a
    partial one (3 of 10). *)
Lemma Init_cached_decodes_iff_needed_witness :
  QByteArray_size document <= kMaxFileSize
  /\ elog (Init_cached document discard [x0a; x0a]%byte FrameRequest_new) = []
  /\ elog (Init_cached document discard [x0a; x03]%byte FrameRequest_new)
     = [EvCreateFromContent document; EvLoadFromData document].
Proof.
  assert (Hfits : QByteArray_size document <= kMaxFileSize)
    by (vm_compute; discriminate).
  split; [exact Hfits|]. split.
  - destruct (Init_cached_decodes_iff_needed document discard
                [x0a; x0a]%byte
                FrameRequest_new sample_kMaxFileSize_is_int
                gzip_output_contract Hfits) as (_ & Hcomplete & _).
    apply Hcomplete; vm_compute; reflexivity.
  - destruct (Init_cached_decodes_iff_needed document discard
                [x0a; x03]%byte
                FrameRequest_new sample_kMaxFileSize_is_int
                gzip_output_contract Hfits) as (_ & _ & Hpartial & _).
    apply Hpartial. right. vm_compute. reflexivity.
Defined.

(** An instance of C5 for each cause: a zlib that cannot set up the
    stream, a plain document that the inflate rejects for its header,
    and a stream whose 65 bytes of output use up the scratch buffer. *)
Lemma UnpackGzip_falls_back_witness :
  @inflateInit2 no_memory (16 + MAX_WBITS) <> Z_OK
  /\ @UnpackGzip limits no_memory hi_gz = hi_gz
  /\ inflate_rejects document
  /\ UnpackGzip document = document
  /\ avail_out (UnpackGzip_call long_gz).1.2 = 0
  /\ UnpackGzip long_gz = long_gz.
Proof.
  assert (Hinit : @inflateInit2 no_memory (16 + MAX_WBITS) <> Z_OK)
    by (vm_compute; discriminate).
  assert (Hrejects : inflate_rejects document)
    by (split; vm_compute; discriminate).
  assert (Hfull : avail_out (UnpackGzip_call long_gz).1.2 = 0)
    by (vm_compute; reflexivity).
  split; [exact Hinit|]. split.
  { apply (@UnpackGzip_falls_back limits no_memory hi_gz).
    left. exact Hinit. }
  split; [exact Hrejects|]. split.
  { apply (UnpackGzip_falls_back document). right; left. exact Hrejects. }
  split; [exact Hfull|].
  apply (UnpackGzip_falls_back long_gz). right; right. exact Hfull.
Defined.

(** An instance of C6: "hi" packed by gzip. *)
Lemma UnpackGzip_round_trip_witness :
  kMaxFileSize_is_int
  /\ output_contract
  /\ inflateInit2 (16 + MAX_WBITS) = Z_OK
  /\ inflates_to (kMaxFileSize + 1) hi_gz hi
  /\ UnpackGzip hi_gz = hi.
Proof.
  assert (Hgz : inflates_to (kMaxFileSize + 1) hi_gz hi)
    by (eexists; vm_compute; reflexivity).
  split; [exact sample_kMaxFileSize_is_int|].
  split; [exact gzip_output_contract|].
  split; [reflexivity|]. split; [exact Hgz|].
  destruct (UnpackGzip_round_trip hi_gz hi sample_kMaxFileSize_is_int
              gzip_output_contract eq_refl) as [Hround _].
  apply Hround; [exact Hgz | vm_compute; discriminate].
Defined.

(** C6 as stated fails on input that is no gzip stream: a lone brace
    comes back empty, and a gzip stream cut off after 16 bytes comes
    back as the one byte inflated by then. *)
Lemma UnpackGzip_alters_malformed :
  (forall room x, ~ inflates_to room ["{"%byte] x)
  /\ UnpackGzip ["{"%byte] = []
  /\ UnpackGzip ["{"%byte] <> ["{"%byte]
  /\ (forall room x, ~ inflates_to room (take 16 hi_gz) x)
  /\ UnpackGzip (take 16 hi_gz) = ["h"%byte]
  /\ UnpackGzip (take 16 hi_gz) <> take 16 hi_gz.
Proof.
  split; [apply not_inflates_to; vm_compute; discriminate|].
  split; [vm_compute; reflexivity|].
  split; [vm_compute; discriminate|].
  split; [apply not_inflates_to; vm_compute; discriminate|].
  split; [vm_compute; reflexivity | vm_compute; discriminate].
Qed.

(** An instance of C7: a file system with a small and an oversized
    file. *)
Lemma ReadContent_cases_witness :
  ReadContent files document "other.tgs" = document
  /\ ReadContent files [] "sticker.tgs" = document
  /\ ReadContent files [] "huge.tgs" = []
  /\ ReadContent files [] "none.tgs" = [].
Proof.
  split; [|split; [|split]].
  - destruct (ReadContent_cases files document "other.tgs") as [Hdata _].
    apply Hdata. discriminate.
  - destruct (ReadContent_cases files [] "sticker.tgs") as (_ & Hfile & _).
    apply (Hfile eq_refl (mk_file 4 true document));
      [reflexivity | vm_compute; discriminate | reflexivity].
  - destruct (ReadContent_cases files [] "huge.tgs") as (_ & _ & Hnone).
    apply (Hnone eq_refl). intros f Hf. vm_compute in Hf.
    injection Hf as <-. left. vm_compute. reflexivity.
  - destruct (ReadContent_cases files [] "none.tgs") as (_ & _ & Hnone).
    apply (Hnone eq_refl). intros f Hf. vm_compute in Hf. discriminate.
Defined.

(** An instance of C8: a controller that lives through its
    initialization. *)
Lemma initDone_at_most_once_witness :
  run (construct document FrameRequest_new)
      [Worker 0%nat; Dispatch 0%nat 5; Tick 6; Destroy]
  = Some (mk_system None [] 1 0
            [EvCreateFromContent document; EvLoadFromData document])
  /\ (1 <= 1)%nat.
Proof.
  assert (Hrun : run (construct document FrameRequest_new)
                   [Worker 0%nat; Dispatch 0%nat 5; Tick 6; Destroy]
                 = Some (mk_system None [] 1 0
                           [EvCreateFromContent document;
                            EvLoadFromData document]))
    by (vm_compute; reflexivity).
  split; [exact Hrun|].
  destruct (initDone_at_most_once (construct document FrameRequest_new)
              _ _ (or_introl (ex_intro _ document
                                (ex_intro _ FrameRequest_new eq_refl)))
              Hrun) as [Hmost _].
  exact Hmost.
Defined.

(** C8 as stated fails on a controller destroyed before its closure is
    dispatched: the run is over, nothing is queued, and [initDone] has
    executed zero times, not once. *)
Lemma initDone_never_runs :
  exists s,
    run (construct document FrameRequest_new)
        [Destroy; Worker 0%nat; Dispatch 0%nat 5] = Some s
    /\ queue s = []
    /\ object s = None
    /\ initDone_calls s = 0%nat
    /\ initDone_calls s <> 1%nat.
Proof.
  eexists. split; [vm_compute; reflexivity|].
  repeat split. discriminate.
Qed.

(** An instance of C9: the packed "hi", 25 bytes in, 2 bytes out. *)
Lemma UnpackGzip_within_limit_witness :
  QByteArray_size hi_gz <= kMaxFileSize
  /\ string_size (UnpackGzip hi_gz) <= kMaxFileSize
  /\ evalue (CreateFromContent hi_gz)
     = Some (loadFromData (UnpackGzip hi_gz)).
Proof.
  assert (Hfits : QByteArray_size hi_gz <= kMaxFileSize)
    by (vm_compute; discriminate).
  split; [exact Hfits|].
  destruct (UnpackGzip_within_limit hi_gz sample_kMaxFileSize_is_int
              gzip_output_contract Hfits) as (Hbound & _ & Hcreate).
  split; [exact Hbound | exact Hcreate].
Defined.

(** An instance of C10: oversized content, a document without frames
    and a good document. *)
Lemma ReadThumbnail_cases_witness :
  ReadThumbnail (replicate 65 "a"%byte) = ([], Some QImage_new)
  /\ evalue (ReadThumbnail no_frames) = Some QImage_new
  /\ evalue (ReadThumbnail document) = Some (Some (mk_size 100 100)).
Proof.
  split; [|split].
  - destruct (ReadThumbnail_cases (replicate 65 "a"%byte)
                sample_kMaxFileSize_is_int gzip_output_contract)
      as [Hbig _].
    apply Hbig. vm_compute. reflexivity.
  - destruct (ReadThumbnail_cases no_frames
                sample_kMaxFileSize_is_int gzip_output_contract)
      as (_ & Hfits & _).
    rewrite Hfits by (vm_compute; discriminate). reflexivity.
  - destruct (ReadThumbnail_cases document
                sample_kMaxFileSize_is_int gzip_output_contract)
      as (_ & Hfits & _).
    rewrite Hfits by (vm_compute; discriminate). reflexivity.
Defined.

(** * The further properties on the sample collaborators *)

Lemma painting_field_laws : @request_field_laws painted painting.
Proof.
  split.
  - intros request. cbn. unfold QSize_eqb. rewrite !Z.eqb_refl. reflexivity.
  - intros state request. reflexivity.
Qed.

Lemma document_constructed :
  constructed (construct document FrameRequest_new).
Proof. left. exists document, FrameRequest_new. reflexivity. Qed.

Lemma painted_constructed :
  constructed (@construct limits painted document (mk_size 0 0)).
Proof. left. exists document, (mk_size 0 0). reflexivity. Qed.

(** An instance of X2: an empty cache. *)
Lemma Init_overloads_agree_witness :
  needs_prepare (Cache_new [] FrameRequest_new discard) = true
  /\ elog (Init_cached document discard [] FrameRequest_new)
     = elog (Init document FrameRequest_new).
Proof.
  assert (Hneeds : needs_prepare (Cache_new [] FrameRequest_new discard)
                   = true) by reflexivity.
  split; [exact Hneeds|].
  destruct (Init_overloads_agree document discard [] FrameRequest_new Hneeds)
    as [Hlog _].
  exact Hlog.
Defined.

(** An instance of X3: the sample files, read by path. *)
Lemma file_content_within_limit_witness :
  0 <= kMaxFileSize
  /\ ContentError (ReadContent files [] "huge.tgs") = None
  /\ FromContent files [] "huge.tgs" FrameRequest_new
     = construct [] FrameRequest_new.
Proof.
  assert (Hmax : 0 <= kMaxFileSize) by (vm_compute; discriminate).
  assert (Hhonest : forall f, files !! "huge.tgs" = Some f ->
            QByteArray_size (file_data f) = file_size f).
  { intros f Hf. vm_compute in Hf. injection Hf as <-.
    vm_compute. reflexivity. }
  split; [exact Hmax|].
  destruct (file_content_within_limit files [] "huge.tgs" FrameRequest_new
              Hmax Hhonest) as (Hpass & _ & Hempty).
  split; [exact (Hpass eq_refl)|].
  apply (Hempty eq_refl (mk_file 65 true (replicate 65 "a"%byte)));
    [reflexivity | vm_compute; reflexivity].
Defined.

(** An instance of X4: the stream after initialization and one frame. *)
Lemma updates_stream_shape_witness :
  exists s a,
    run (construct document FrameRequest_new)
        [Worker 0%nat; Dispatch 0%nat 5; Tick 7] = Some s
    /\ object s = Some a
    /\ exists information positions,
         _updates a
         = fire (InformationUpdate information) :: displayed positions.
Proof.
  eexists. eexists.
  assert (Hrun : run (construct document FrameRequest_new)
                   [Worker 0%nat; Dispatch 0%nat 5; Tick 7]
                 = Some (mk_system
                     (Some (mk_animation (mk_timer false []) kTimeUnknown
                        (Some (mk_state
                                 (mk_information 30 10 (mk_size 100 100))
                                 5 [7]))
                        true
                        [fire (InformationUpdate
                                 (mk_information 30 10 (mk_size 100 100)));
                         fire (DisplayFrameRequest 2)]
                        true))
                     [] 1 0
                     [EvCreateFromContent document; EvLoadFromData document]))
    by (vm_compute; reflexivity).
  split; [exact Hrun|]. split; [reflexivity|].
  destruct (updates_stream_shape _ _ _ _ document_constructed Hrun eq_refl)
    as (_ & _ & Hready).
  apply Hready. reflexivity.
Defined.

(** An instance of X5: the controller while its worker is still out. *)
Lemma idle_until_ready_witness :
  run (construct document FrameRequest_new) [Worker 0%nat]
  = Some (mk_system (Some Animation_new)
            [OnMain (inl (mk_state (mk_information 30 10 (mk_size 100 100))
                            0 []))]
            0 0 [EvCreateFromContent document; EvLoadFromData document])
  /\ ready Animation_new = false
  /\ timer_armed (_timer Animation_new) = [].
Proof.
  assert (Hrun : run (construct document FrameRequest_new) [Worker 0%nat]
                 = Some (mk_system (Some Animation_new)
                     [OnMain (inl (mk_state
                                     (mk_information 30 10 (mk_size 100 100))
                                     0 []))]
                     0 0
                     [EvCreateFromContent document; EvLoadFromData document]))
    by (vm_compute; reflexivity).
  split; [exact Hrun|]. split; [reflexivity|].
  destruct (idle_until_ready _ _ _ _ document_constructed Hrun eq_refl
              eq_refl) as (_ & _ & _ & Harmed & _).
  exact Harmed.
Defined.

(** An instance of X6: the controller armed by a step at 3. *)
Lemma pacing_never_fails_witness :
  run (construct document FrameRequest_new)
      [Worker 0%nat; Dispatch 0%nat 5; Tick 3]
  = Some (mk_system (Some armed) [] 1 0
            [EvCreateFromContent document; EvLoadFromData document])
  /\ is_Some (checkStep armed 9)
  /\ is_Some (timer_fired armed 9).
Proof.
  assert (Hrun : run (construct document FrameRequest_new)
                   [Worker 0%nat; Dispatch 0%nat 5; Tick 3]
                 = Some (mk_system (Some armed) [] 1 0
                           [EvCreateFromContent document;
                            EvLoadFromData document]))
    by (vm_compute; reflexivity).
  split; [exact Hrun|].
  destruct (pacing_never_fails _ _ _ armed 9 document_constructed Hrun
              eq_refl) as (Hcheck & Hshot & _).
  split; [apply Hcheck; reflexivity|].
  apply Hshot. reflexivity.
Defined.

(** An instance of X7: initialized at 5, its first frame due at 5; the
    step at 7 displays it at once. *)
Lemma checkStep_same_tick_witness :
  run (construct document FrameRequest_new) [Worker 0%nat; Dispatch 0%nat 5]
  = Some (mk_system (Some started) [] 1 0
            [EvCreateFromContent document; EvLoadFromData document])
  /\ ready started = true
  /\ _nextFrameTime started = kTimeUnknown
  /\ exists a', checkStep started 7 = Some a'
       /\ _nextFrameTime a' = kTimeUnknown
       /\ _updates a' = _updates started ++ [fire (DisplayFrameRequest 2)].
Proof.
  assert (Hrun : run (construct document FrameRequest_new)
                   [Worker 0%nat; Dispatch 0%nat 5]
                 = Some (mk_system (Some started) [] 1 0
                           [EvCreateFromContent document;
                            EvLoadFromData document]))
    by (vm_compute; reflexivity).
  split; [exact Hrun|]. split; [reflexivity|]. split; [reflexivity|].
  destruct (checkStep_same_tick _ _ _ started 7 document_constructed Hrun
              eq_refl eq_refl eq_refl) as (state & Hstate & _ & _ & Hdue).
  injection Hstate as <-.
  eexists. split; [apply Hdue; vm_compute; discriminate|].
  split; reflexivity.
Defined.

(** An instance of X8: one decode over a whole life. *)
Lemma controller_decodes_at_most_once_witness :
  exists s,
    run (construct document FrameRequest_new)
        [Worker 0%nat; Dispatch 0%nat 5; Tick 7; Destroy] = Some s
    /\ (loads (decode_log s) <= 1)%nat.
Proof.
  eexists.
  assert (Hrun : run (construct document FrameRequest_new)
                   [Worker 0%nat; Dispatch 0%nat 5; Tick 7; Destroy]
                 = Some (mk_system None [] 1 0
                           [EvCreateFromContent document;
                            EvLoadFromData document]))
    by (vm_compute; reflexivity).
  split; [exact Hrun|].
  destruct (controller_decodes_at_most_once _ _ _ document_constructed Hrun)
    as [Hloads _].
  exact Hloads.
Defined.

(** An instance of X9: destroyed before its worker ran. *)
Lemma destroy_keeps_decode_witness :
  run (construct document FrameRequest_new)
      [Destroy; Worker 0%nat; Dispatch 0%nat 5]
  = Some (mk_system None [] 0 1
            [EvCreateFromContent document; EvLoadFromData document]).
Proof.
  destruct (destroy_keeps_decode (construct document FrameRequest_new)
              0%nat 5) as [_ Hdrop].
  rewrite (Hdrop document FrameRequest_new
             (inl (mk_state (mk_information 30 10 (mk_size 100 100)) 0 []))
             Animation_new eq_refl eq_refl);
    [reflexivity | vm_compute; reflexivity].
Defined.

(** An instance of X10: a controller that was initialized gives its
    state back. *)
Lemma destructor_removes_appended_witness :
  run (construct document FrameRequest_new) [Worker 0%nat; Dispatch 0%nat 5]
  = Some (mk_system (Some started) [] 1 0
            [EvCreateFromContent document; EvLoadFromData document])
  /\ exists removed,
       Animation_destroy started = Some removed /\ is_Some removed.
Proof.
  assert (Hrun : run (construct document FrameRequest_new)
                   [Worker 0%nat; Dispatch 0%nat 5]
                 = Some (mk_system (Some started) [] 1 0
                           [EvCreateFromContent document;
                            EvLoadFromData document]))
    by (vm_compute; reflexivity).
  split; [exact Hrun|].
  destruct (destructor_removes_appended _ _ _ started document_constructed
              Hrun eq_refl) as (removed & Hdestroy & Hready & _).
  exists removed. split; [exact Hdestroy|]. apply Hready. reflexivity.
Defined.

(** An instance of X11: a frame of 64 by 64 asked for twice. *)
Lemma frame_notifies_once_witness :
  @request_field_laws painted painting
  /\ frame on_screen (mk_size 64 64)
     = Some (Some (mk_size 64 64), resized, [updateFrameRequest])
  /\ frame resized (mk_size 64 64)
     = Some (Some (mk_size 64 64), resized, []).
Proof.
  assert (Hfirst : frame on_screen (mk_size 64 64)
                   = Some (Some (mk_size 64 64), resized,
                           [updateFrameRequest]))
    by (vm_compute; reflexivity).
  split; [exact painting_field_laws|]. split; [exact Hfirst|].
  destruct (frame_notifies_once on_screen resized (mk_size 64 64) _ _
              painting_field_laws Hfirst)
    as [(state & state' & _ & Hstate' & _ & _ & Hagain) _].
  injection Hstate' as <-. exact Hagain.
Defined.

(** An instance of X12: the painted controller before and after its
    initialization. *)
Lemma ready_is_the_precondition_witness :
  @run limits gzip painted (@construct limits painted document (mk_size 0 0))
    [Worker 0%nat; Dispatch 0%nat 5]
  = Some (@mk_system painted (Some on_screen) [] 1 0
            [EvCreateFromContent document; EvLoadFromData document])
  /\ is_Some (frame on_screen (mk_size 64 64))
  /\ is_Some (markFrameShown on_screen).
Proof.
  assert (Hrun : @run limits gzip painted
                   (@construct limits painted document (mk_size 0 0))
                   [Worker 0%nat; Dispatch 0%nat 5]
                 = Some (@mk_system painted (Some on_screen) [] 1 0
                           [EvCreateFromContent document;
                            EvLoadFromData document]))
    by (vm_compute; reflexivity).
  split; [exact Hrun|].
  destruct (ready_is_the_precondition _ _ _ on_screen (mk_size 64 64) 0
              painted_constructed Hrun eq_refl) as (Hframe & _ & Hshown).
  split; [apply Hframe; reflexivity | apply Hshown; reflexivity].
Defined.

(** An instance of X13: the document, and 65 bytes too many. *)
Lemma init_outcome_delivered_witness :
  evalue (Init document FrameRequest_new)
  = Some (inl (mk_state (mk_information 30 10 (mk_size 100 100)) 0 []))
  /\ run (construct document FrameRequest_new) [Worker 0%nat; Dispatch 0%nat 5]
     = Some (mk_system (Some started) [] 1 0
               [EvCreateFromContent document; EvLoadFromData document])
  /\ run (construct (replicate 65 "a"%byte) FrameRequest_new)
         [Worker 0%nat; Dispatch 0%nat 5]
     = Some (mk_system (Some (parseFailed Animation_new ParseFailed))
               [] 1 0 []).
Proof.
  assert (Hdata : evalue (Init document FrameRequest_new)
                  = Some (inl (mk_state
                                 (mk_information 30 10 (mk_size 100 100))
                                 0 [])))
    by (vm_compute; reflexivity).
  split; [exact Hdata|]. split.
  - destruct (init_outcome_delivered document FrameRequest_new discard []
                (inl (mk_state (mk_information 30 10 (mk_size 100 100)) 0 []))
                5) as [Hrun _].
    rewrite (Hrun Hdata). vm_compute. reflexivity.
  - destruct (init_outcome_delivered (replicate 65 "a"%byte)
                FrameRequest_new discard [] (inr ParseFailed) 5)
      as (_ & _ & _ & _ & Hbig).
    apply Hbig. vm_compute. reflexivity.
Defined.

